(** * The embedding and matching engine of the job-matching service

    A shallow embedding of the rate limiter ([app/core/rate_limit.py]), the
    embedding client ([app/services/embeddings.py]), the vector search
    ([app/repositories/job.py], [app/services/vector_search.py]), the
    matching services ([app/services/job_matching.py]) and the embedding
    refresh task ([app/tasks/jobs.py]).

    Conventions of the embedding.
    - A coroutine is a function of the state it touches; one call reads the
      clock once and runs without interleaving.
    - Time is the POSIX time in whole seconds ([Z]). The limiter only uses
      [now] through [now - now % window_seconds] and through the expiry of a
      key at an integral timestamp, and both depend on the floor of [now]
      only.
    - An exception is the one that the interpreter raises. A [raise]
      statement whose exception cannot be constructed raises the exception
      of the failed construction; a call whose arguments do not fit the
      signature raises [TypeError]; the read of an attribute or of a name
      that does not exist raises [AttributeError] or [NameError]. Logging
      is not modelled.
    - Scores and vector components are rationals ([Q]); the distance
      operator and the pattern matching of the database, the tokenizer and
      the embedding provider are parameters, and so are the collaborators
      whose code is not in the repository ([OpenAIService] and the read of
      the work queue) and, where a statement is sent to the database, what
      the database does with it: whether it fails, the key it gives to a
      new row, and the order of the rows of a statement without
      [ORDER BY]. *)

From Stdlib Require Import ZArith QArith List String Ascii Bool Lia Sorted Permutation.
From stdpp Require Import base option list gmap strings.

Local Open Scope string_scope.
Local Open Scope Z_scope.

(** ** Exceptions ([app/core/exceptions.py] and the built-in ones) *)

(** A message is a literal, or an f-string given by its literal text with
    [{}] for each formatted value, and those values. *)
Inductive message :=
| Msg (text : string)
| MsgFmt (text : string) (args : list Z).

(** The exceptions that reach a caller. [AttributeError obj attr] reads
    ['obj' object has no attribute 'attr']; [ArgumentError] and
    [InvalidRequestError] are those of [sqlalchemy.exc]; [RedisError],
    [ProviderFailure] and [StoreFailure] stand for the errors of the counter
    store, of the embedding provider and of the database. *)
Inductive exn :=
| AttributeError (obj attr : string)
| TypeError (detail : string)
| NameError (name : string)
| ValueError (m : message)
| IndexError
| ZeroDivisionError
| RedisError
| ArgumentError (detail : string)
| InvalidRequestError (detail : string)
| ProviderFailure (detail : string)
| StoreFailure (detail : string).

(** *** The classes of [exceptions.py]

    [JobMatchingError.__init__] calls [self._log_error(message)] before
    [super().__init__(...)], and [_log_error] reads [self.context], which
    only [BaseError.__init__] sets. The construction of a
    [JobMatchingError], and of every class derived from it, therefore
    raises ['<class>' object has no attribute 'context'], and a statement
    [raise Cls(...)] raises that [AttributeError] in place of a [Cls]; no
    instance of these classes ever exists. Where the arguments do not fit
    the signature of [Cls.__init__], the call raises [TypeError] before
    that. The definitions below give, for the [raise] statements of the
    embedded code, the exception that each one raises. *)
Definition JobMatchingError (cls : string) : exn := AttributeError cls "context".

(** [RateLimitError(message)] *)
Definition RateLimitError (m : message) : exn := JobMatchingError "RateLimitError".

(** [OpenAIError(message) from e] *)
Definition OpenAIError (m : message) (cause : exn) : exn := JobMatchingError "OpenAIError".

(** [DatabaseError(message=..., context=..., original_error=e)] *)
Definition DatabaseError (m : message) (original_error : exn) : exn :=
  JobMatchingError "DatabaseError".

(** [ValidationError(message)]: [__init__] requires [field] as well. *)
Definition ValidationError (m : message) : exn :=
  TypeError "ValidationError.__init__() missing 1 required positional argument: 'field'".

(** [UserError(message=..., error_code=...)]: [__init__] has no parameter
    [error_code]. *)
Definition UserError (m : message) (error_code : string) : exn :=
  TypeError "UserError.__init__() got an unexpected keyword argument 'error_code'".

(** [UserError(message)]: [__init__] requires [telegram_id] as well. *)
Definition UserError_message_only (m : message) : exn :=
  TypeError "UserError.__init__() missing 1 required positional argument: 'telegram_id'".

Inductive result (A : Type) :=
| Ok (a : A)
| Raise (e : exn).
Arguments Ok {A} a.
Arguments Raise {A} e.

Definition is_ok {A} (r : result A) : bool :=
  match r with Ok _ => true | Raise _ => false end.

(** ** Effectful code: state passing with exceptions

    The state survives an exception: Python rolls nothing back. *)
Module Eff.

Definition M (S A : Type) : Type := S -> result A * S.

Definition ret {S A} (a : A) : M S A := fun s => (Ok a, s).
Definition raise {S A} (e : exn) : M S A := fun s => (Raise e, s).
Definition bind {S A B} (m : M S A) (k : A -> M S B) : M S B :=
  fun s => match m s with
           | (Ok a, s') => k a s'
           | (Raise e, s') => (Raise e, s')
           end.
(** [try: m except <classes accepted by h>: ...]; [h e = None] when no
    clause matches and the exception goes on. *)
Definition try_except {S A} (m : M S A) (h : exn -> option (M S A)) : M S A :=
  fun s => match m s with
           | (Ok a, s') => (Ok a, s')
           | (Raise e, s') =>
               match h e with
               | Some k => k s'
               | None => (Raise e, s')
               end
           end.

End Eff.

Notation "x <- m ;; k" := (Eff.bind m (fun x => k))
  (at level 100, m at next level, right associativity, only parsing).
Notation "m ;;; k" := (Eff.bind m (fun _ => k))
  (at level 100, right associativity, only parsing).

(** ** The shared counter store (the Redis commands the limiter issues) *)
Module Redis.

Record entry := { value : Z; expire_at : option Z }.

(** What one call sees of the store: the keys, and for each command the
    call is about to issue whether the connection fails on it. *)
Record conn := { db : gmap string entry; faults : list bool }.

Definition live (now : Z) (e : entry) : bool :=
  match expire_at e with
  | None => true
  | Some t => now <? t
  end.

(** The entry under [key], a key past its expiry being gone. *)
Definition lookup (now : Z) (key : string) (d : gmap string entry) : option entry :=
  match d !! key with
  | Some e => if live now e then Some e else None
  | None => None
  end.

(** Every command first goes through the connection. *)
Definition command {A} (f : gmap string entry -> A * gmap string entry) : Eff.M conn A :=
  fun c =>
    match faults c with
    | true :: rest => (Raise RedisError, {| db := db c; faults := rest |})
    | false :: rest => let '(a, d) := f (db c) in (Ok a, {| db := d; faults := rest |})
    | [] => let '(a, d) := f (db c) in (Ok a, {| db := d; faults := [] |})
    end.

Definition get (now : Z) (key : string) : Eff.M conn (option Z) :=
  command (fun d => (value <$> lookup now key d, d)).

Definition ttl (now : Z) (key : string) : Eff.M conn Z :=
  command (fun d =>
    (match lookup now key d with
     | None => -2
     | Some e => match expire_at e with None => -1 | Some t => t - now end
     end, d)).

Definition incr (now : Z) (key : string) : Eff.M conn Z :=
  command (fun d =>
    match lookup now key d with
    | Some e => (value e + 1, <[key := {| value := value e + 1; expire_at := expire_at e |}]> d)
    | None => (1, <[key := {| value := 1; expire_at := None |}]> d)
    end).

Definition expireat (now : Z) (key : string) (t : Z) : Eff.M conn bool :=
  command (fun d =>
    match lookup now key d with
    | Some e =>
        (true, if t <=? now then delete key d
               else <[key := {| value := value e; expire_at := Some t |}]> d)
    | None => (false, d)
    end).

(** A connection that answers every command. *)
Definition quiet (d : gmap string entry) : conn := {| db := d; faults := [] |}.

(** One call against the keys [d], the connection failing as [fs] says. *)
Definition run {A} (m : Eff.M conn A) (fs : list bool) (d : gmap string entry)
  : result A * gmap string entry :=
  let '(r, c) := m {| db := d; faults := fs |} in (r, db c).

(** The counter under [key] as the store holds it at [now]; 0 when the key
    is absent or expired. *)
Definition counter (now : Z) (key : string) (d : gmap string entry) : Z :=
  default 0 (value <$> lookup now key d).

End Redis.

(** ** [app/core/rate_limit.py] *)
Module RateLimit.

Record RateLimitInfo := { remaining : Z; reset_at : Z; total : Z }.

(** The fields of a [RateLimiter]; [connected] says that [self.redis] is
    set, that is that [init] has run. *)
Record RateLimiter := {
  key_prefix : string;
  max_requests : Z;
  window_seconds : Z;
  connected : bool
}.

Definition _get_key (self : RateLimiter) (identifier : string) : string :=
  (key_prefix self ++ ":" ++ identifier)%string.

(** [int(now - (now % self.window_seconds))]; the modulo raises when the
    window is 0. *)
Definition window_start (self : RateLimiter) (now : Z) : Eff.M Redis.conn Z :=
  if window_seconds self =? 0 then Eff.raise ZeroDivisionError
  else Eff.ret (now - now mod window_seconds self).

Definition get_limit_info (self : RateLimiter) (now : Z) (identifier : string)
  : Eff.M Redis.conn RateLimitInfo :=
  if negb (connected self) then
    Eff.raise (RateLimitError (Msg "Rate limiter not initialized"))
  else
    let key := _get_key self identifier in
    ws <- window_start self now ;;
    count <- Redis.get now key ;;
    ttl <- Redis.ttl now key ;;
    match count with
    | None =>
        Eff.ret {| remaining := max_requests self;
                   reset_at := ws + window_seconds self;
                   total := max_requests self |}
    | Some count =>
        Eff.ret {| remaining := Z.max 0 (max_requests self - count);
                   reset_at := ws + window_seconds self;
                   total := max_requests self |}
    end.

(** [acquire]. Its three [raise RateLimitError(...)] statements raise the
    [AttributeError] of the construction; the one for an exhausted budget
    is inside the [try], whose handler takes [redis.RedisError] only. *)
Definition acquire (self : RateLimiter) (now : Z) (identifier : string)
  : Eff.M Redis.conn unit :=
  if negb (connected self) then
    Eff.raise (RateLimitError (Msg "Rate limiter not initialized"))
  else
    let key := _get_key self identifier in
    ws <- window_start self now ;;
    Eff.try_except
      (count <- Redis.incr now key ;;
       (if count =? 1
        then Redis.expireat now key (ws + window_seconds self) ;;; Eff.ret tt
        else Eff.ret tt) ;;;
       if max_requests self <? count then
         info <- get_limit_info self now identifier ;;
         Eff.raise (RateLimitError
                      (MsgFmt "Rate limit exceeded. Reset in {}" [reset_at info - now]))
       else Eff.ret tt)
      (fun e => match e with
                | RedisError =>
                    Some (Eff.raise (RateLimitError (Msg "Failed to check rate limit")))
                | _ => None
                end).

(** [RateLimiter.__call__]: the decorated function, the identifier being
    the name of the function. Both handlers, [except RateLimitError] and
    [except Exception], raise the exception again. *)
Definition rate_limited {A} (self : RateLimiter) (func_name : string)
    (func : Eff.M Redis.conn A) (now : Z) : Eff.M Redis.conn A :=
  Eff.try_except
    (acquire self now func_name ;;; func)
    (fun e => Some (Eff.raise e)).

(** [OpenAIRateLimiter], [OPENAI_RATE_LIMIT_RPM] being a setting. *)
Definition OpenAIRateLimiter (rpm : Z) (connected : bool) : RateLimiter :=
  {| key_prefix := "openai"; max_requests := rpm; window_seconds := 60;
     connected := connected |}.

End RateLimit.

(** ** [app/services/embeddings.py] *)
Module Embeddings.

(** [str.isspace] on the ASCII range; texts are taken in ASCII. *)
Definition is_space (c : ascii) : bool :=
  let n := nat_of_ascii c in
  ((9 <=? n) && (n <=? 13) || (28 <=? n) && (n <=? 32))%nat.

(** [text.replace("\n", " ")] *)
Fixpoint replace_newlines (s : string) : string :=
  match s with
  | EmptyString => EmptyString
  | String c r =>
      String (if Ascii.eqb c "010"%char then " "%char else c) (replace_newlines r)
  end.

Fixpoint lstrip (s : string) : string :=
  match s with
  | EmptyString => EmptyString
  | String c r => if is_space c then lstrip r else s
  end.

Fixpoint rstrip (s : string) : string :=
  match s with
  | EmptyString => EmptyString
  | String c r =>
      match rstrip r with
      | EmptyString => if is_space c then EmptyString else String c EmptyString
      | r' => String c r'
      end
  end.

Definition strip (s : string) : string := rstrip (lstrip s).

Definition max_text_length : Z := 8191.

Section Client.

(** [self.encoding.encode], the tokenizer of the model. *)
Variable encode : string -> list Z.
(** [openai.Embedding.acreate(input=text, model=self.model)]: the [data]
    list of the response, each item reduced to its [embedding], or the
    exception of the client. *)
Variable acreate : string -> result (list (list Q)).

(** [_validate_text]. Both refusals are written
    [raise ValidationError(message)] and raise [TypeError]. *)
Definition _validate_text (text : string) : result string :=
  if String.eqb text "" then
    Raise (ValidationError (Msg "Text must be a non-empty string"))
  else
    let text := strip (replace_newlines text) in
    let tokens := Z.of_nat (length (encode text)) in
    if max_text_length <? tokens then
      Raise (ValidationError
               (MsgFmt "Text is too long ({} tokens). Maximum is {} tokens."
                       [tokens; max_text_length]))
    else Ok text.

(** The body of [generate_embedding], under the decorator. Of its two
    handlers, [except ValidationError: raise] takes no exception, there
    being no instance of the class; [except Exception as e] takes them all
    and raises [OpenAIError(...) from e]. *)
Definition generate_embedding_body (text : string) : result (list Q) :=
  let attempt :=
    match _validate_text text with
    | Raise e => Raise e
    | Ok text =>
        match acreate text with
        | Raise e => Raise e
        | Ok data =>
            match data with
            | embedding :: _ => Ok embedding
            | [] => Raise IndexError
            end
        end
    end in
  match attempt with
  | Ok embedding => Ok embedding
  | Raise e => Raise (OpenAIError (Msg "Failed to generate embedding") e)
  end.

(** [generate_embedding] as decorated with [@openai_rate_limiter]. *)
Definition generate_embedding (limiter : RateLimit.RateLimiter) (now : Z)
    (text : string) : Eff.M Redis.conn (list Q) :=
  RateLimit.rate_limited limiter "generate_embedding"
    (fun c => (generate_embedding_body text, c)) now.

End Client.

End Embeddings.

(** ** The relational store ([app/models]) *)
Module Models.

(** [JobsApp_job] ([app/models/job.py]), with the columns the engine reads. *)
Record Job := {
  id : Z;
  job_title : string;
  seniority : string;
  service : string;
  location : string;
  description : string;
  is_indexed : bool;
  embedding : option (list Q)
}.

(** [users] ([app/models/user.py]) *)
Record User := {
  user_id : Z;
  telegram_id : Z;
  cv_embedding : option (list Q);
  preferences : option (gmap string string)
}.

(** [cvs] ([app/models/cv.py]); [cv_vector] is the column [embedding], an
    array of floats. *)
Record CV := {
  cv_id : Z;
  cv_user_id : Z;
  raw_text : string;
  cv_vector : option (list Q);
  created_at : Z
}.

(** [job_matches] *)
Record JobMatch := {
  match_id : Z;
  match_telegram_id : Z;
  match_job_id : Z;
  score : Q
}.

(** The tables; [job_embeddings] has one row per [job_id] with a nullable
    [embedding]. *)
Record Database := {
  users : list User;
  cvs : list CV;
  jobs : list Job;
  job_embeddings : gmap Z (option (list Q));
  job_matches : list JobMatch
}.

Definition set_job_matches (ms : list JobMatch) (d : Database) : Database :=
  {| users := users d; cvs := cvs d; jobs := jobs d;
     job_embeddings := job_embeddings d; job_matches := ms |}.

Definition set_jobs (js : list Job) (d : Database) : Database :=
  {| users := users d; cvs := cvs d; jobs := js;
     job_embeddings := job_embeddings d; job_matches := job_matches d |}.

(** [job.embedding = e] *)
Definition with_embedding (e : list Q) (j : Job) : Job :=
  {| id := id j; job_title := job_title j; seniority := seniority j;
     service := service j; location := location j;
     description := description j; is_indexed := is_indexed j;
     embedding := Some e |}.

(** Truth value of an optional vector: [None] and the empty list are false. *)
Definition truthy_vector (v : option (list Q)) : bool :=
  match v with
  | Some (_ :: _) => true
  | _ => false
  end.

End Models.

(** ** The similarity query of [find_similar_jobs] and [find_matching_jobs] *)
Module Search.
Import Models.

(** [ORDER BY similarity DESC]: insertion from the right, an element going
    before the first one that is not strictly better, so that equal scores
    keep the order of the rows. *)
Fixpoint insert_desc {A} (x : A * Q) (l : list (A * Q)) : list (A * Q) :=
  match l with
  | [] => [x]
  | y :: l' => if Qle_bool (snd y) (snd x) then x :: l else y :: insert_desc x l'
  end.

Definition order_by_similarity_desc {A} (l : list (A * Q)) : list (A * Q) :=
  foldr insert_desc [] l.


Section Query.

(** [a <=> b], the cosine distance operator of the database. *)
Variable cosine_distance : list Q -> list Q -> Q.
(** [value ILIKE pattern] *)
Variable ilike : string -> string -> bool.

(** [FROM "JobsApp_job" j JOIN job_embeddings je ON je.job_id = j.id
    WHERE je.embedding IS NOT NULL] *)
Definition joined (d : Database) : list (Job * list Q) :=
  flat_map (fun j => match job_embeddings d !! id j with
                     | Some (Some e) => [(j, e)]
                     | _ => []
                     end) (jobs d).

(** [1 - (je.embedding <=> :embedding)] *)
Definition similarity (query e : list Q) : Q := 1 - cosine_distance e query.

(** An optional filter, added to the query when the argument is true:
    [AND j.<column> ILIKE '%<arg>%']. *)
Definition optional_filter (arg : option string) (column : string) : bool :=
  match arg with
  | None | Some "" => true
  | Some a => ilike column ("%" ++ a ++ "%")
  end.

(** The statement that [find_similar_jobs] ([repositories/job.py], lines
    127 to 157) and [find_matching_jobs] ([vector_search.py], lines 76 to
    89) write, as the database evaluates it:
    [SELECT j.*, similarity ... WHERE ... AND similarity >= :min
    ORDER BY similarity DESC LIMIT :limit] over the rows kept by [keep],
    which stands for the optional filters of the first and for
    [j.is_indexed = true] of the second; the database refuses a negative
    [LIMIT]. *)
Definition select_similar (keep : Job -> bool) (query : list Q)
    (min_similarity : Q) (limit : Z) (d : Database) : result (list (Job * Q)) :=
  if limit <? 0 then Raise (StoreFailure "LIMIT must not be negative")
  else
    let scored := map (fun r => (fst r, similarity query (snd r)))
                      (List.filter (fun r => keep (fst r)) (joined d)) in
    let passing := List.filter (fun r => Qle_bool min_similarity (snd r)) scored in
    Ok (firstn (Z.to_nat limit) (order_by_similarity_desc passing)).


(** [self.session.execute(query, params)] with [query] a Python [str]: the
    session takes executable statements only ([text(...)], [select(...)])
    and raises [ArgumentError] for a string, whatever the database would
    have answered. *)
Definition session_execute_str {A} (answer : result A) : result A :=
  Raise (ArgumentError "Textual SQL expression should be explicitly declared as text()").

(** [JobRepository.find_similar_jobs]: the statement is built as a string
    and handed to the session as it is. *)
Definition find_similar_jobs (embedding : list Q) (min_similarity : Q) (limit : Z)
    (location seniority service : option string) (d : Database)
  : result (list (Job * Q)) :=
  session_execute_str
    (select_similar
       (fun j => optional_filter location (Models.location j)
                 && optional_filter seniority (Models.seniority j)
                 && optional_filter service (Models.service j))
       embedding min_similarity limit d).

End Query.

End Search.

(** ** [app/services/vector_search.py] *)
Module VectorSearch.
Import Models.

Definition dimension : nat := 1536.

(** One entry of the list that [find_matching_jobs] returns. *)
Record match_entry := { job : Job; match_score : Q }.

(** [self.cv_repo.get(cv_id, load_relationships=["embedding"])]:
    [BaseRepository.get(self, id)] has no such parameter, the call raises
    [TypeError] and no query is made. *)
Definition cv_repo_get_load_relationships (cv_id : Z) (d : Database)
  : result (option CV) :=
  Raise (TypeError "BaseRepository.get() got an unexpected keyword argument 'load_relationships'").

(** The [select(CV)] of [get_latest_by_user]. It needs the mapper of [CV],
    whose relationship [user] is declared with [back_populates="cvs"], a
    property that [User] does not have: the mappers cannot be configured
    and [session.execute] raises [InvalidRequestError]. *)
Definition select_latest_cv (user_id : Z) (d : Database) : result (option CV) :=
  Raise (InvalidRequestError "Mapper 'Mapper[User(users)]' has no property 'cvs'").

(** [CVRepository.get_latest_by_user] *)
Definition get_latest_by_user (user_id : Z) (d : Database) : result (option CV) :=
  match select_latest_cv user_id d with
  | Ok cv => Ok cv
  | Raise e =>
      Raise (DatabaseError (MsgFmt "Failed to get latest CV for user {}" [user_id]) e)
  end.

(** [find_matching_jobs]. The first statement of its [try] raises; were a
    CV with a vector obtained, [cv.embedding.embedding] would read the
    attribute [embedding] of the list that the column holds. The statement
    of lines 76 to 89 is never sent. *)
Definition find_matching_jobs (cv_id : Z) (min_score : Q) (limit : Z) (d : Database)
  : result (list match_entry) :=
  let attempt : result (list match_entry) :=
    match cv_repo_get_load_relationships cv_id d with
    | Raise e => Raise e
    | Ok None => Raise (ValueError (MsgFmt "CV {} not found" [cv_id]))
    | Ok (Some cv) =>
        if negb (truthy_vector (cv_vector cv)) then
          Raise (ValueError (MsgFmt "CV {} has no embedding" [cv_id]))
        else Raise (AttributeError "list" "embedding")
    end in
  match attempt with
  | Ok matches => Ok matches
  | Raise (ValueError m) => Raise (ValueError m)
  | Raise e => Raise (DatabaseError (Msg "Failed to find matching jobs") e)
  end.

(** [refresh_job_matches] *)
Definition refresh_job_matches (user_id : Z) (min_score : Q) (limit : Z) (d : Database)
  : result (list match_entry) :=
  let attempt :=
    match get_latest_by_user user_id d with
    | Raise e => Raise e
    | Ok None => Ok []
    | Ok (Some cv) => find_matching_jobs (cv_id cv) min_score limit d
    end in
  match attempt with
  | Ok matches => Ok matches
  | Raise e => Raise (DatabaseError (Msg "Failed to refresh job matches") e)
  end.

End VectorSearch.

(** ** [app/services/job_matching.py] *)
Module JobMatching.
Import Models.

(** The dictionaries that [search_jobs] builds and [save_job_matches]
    returns. *)
Record match_dict := {
  d_job_id : Z;
  d_score : Q;
  d_job_title : string;
  d_location : string;
  d_service : string;
  d_seniority : string;
  d_description : string
}.

(** Truth value of an optional dictionary. *)
Definition truthy_dict (p : option (gmap string string)) : bool :=
  match p with
  | Some m => negb (bool_decide (m = ∅))
  | None => false
  end.

(** [JobMatchRepository.create_match], that is [BaseRepository.create] on
    [job_matches]: the object is added to the session and flushed. [flush]
    is what the flush does: the key that the sequence of the table gives to
    the row, or the exception of the store, which [create] logs and raises
    again. *)
Definition create_match (flush : result Z) (telegram_id job_id : Z) (score : Q)
  : Eff.M Database JobMatch :=
  fun d =>
    match flush with
    | Raise e => (Raise e, d)
    | Ok key =>
        let row := {| match_id := key;
                      match_telegram_id := telegram_id;
                      match_job_id := job_id;
                      Models.score := score |} in
        (Ok row, set_job_matches (job_matches d ++ [row]) d)
    end.

(** [safe_execute(func, error_message, **kwargs)] calls [func()] without
    arguments; [call] is what that call does. The handler raises
    [JobMatchingError(...)] for every exception that is not one already,
    and none is. *)
Definition safe_execute {A} (call : result A) : result A :=
  match call with
  | Ok a => Ok a
  | Raise e => Raise (JobMatchingError "JobMatchingError")
  end.

(** [except SQLAlchemyError as e]: the module does not import
    [SQLAlchemyError], so that matching any exception against the clause
    raises [NameError]. *)
Definition except_SQLAlchemyError {S A} (e : exn) : option (Eff.M S A) :=
  Some (Eff.raise (NameError "SQLAlchemyError")).

(** [JobMatchingService.match_jobs_for_user]. [safe_execute] is given
    [self.user_repo.get_by_telegram_id] and calls it without its
    [telegram_id]. Further on, [UserError(error_msg)] lacks its
    [telegram_id], and [JobMatchRepository] has no [find_matches]. *)
Definition match_jobs_for_user (telegram_id : Z) (limit : Z)
  : Eff.M Database (list (Job * Q)) :=
  Eff.try_except
    (fun d =>
       match safe_execute
               (Raise (TypeError "get_by_telegram_id() missing 1 required positional argument: 'telegram_id'")
                : result (option User)) with
       | Raise e => (Raise e, d)
       | Ok None =>
           (Raise (UserError_message_only (MsgFmt "User {} not found" [telegram_id])), d)
       | Ok (Some user) =>
           if negb (truthy_vector (Models.cv_embedding user)) then
             (Raise (UserError_message_only (Msg "User has no CV uploaded")), d)
           else (Raise (AttributeError "JobMatchRepository" "find_matches"), d)
       end)
    except_SQLAlchemyError.

Section Service.

Variable cosine_distance : list Q -> list Q -> Q.
Variable ilike : string -> string -> bool.
(** The answer of the [select(User)] of [get_by_telegram_id]. *)
Variable select_user : Z -> Database -> result (option User).
(** What the flush of a new row of [job_matches] does. *)
Variable flush_match : Database -> result Z.
(** [await self.init()] of the recommendation service and of the matching
    service, where they have not been initialised; [Ok tt] where they
    have. *)
Variable recommendation_init : result unit.
Variable matching_init : result unit.

(** [UserRepository.get_by_telegram_id] *)
Definition get_by_telegram_id (telegram_id : Z) (d : Database) : result (option User) :=
  match select_user telegram_id d with
  | Ok user => Ok user
  | Raise e =>
      Raise (DatabaseError (MsgFmt "Failed to get user by telegram_id {}" [telegram_id]) e)
  end.

(** [await self._get_repos()]: no class defines [_get_repos]. *)
Definition _get_repos : result unit :=
  Raise (AttributeError "JobMatchingService" "_get_repos").

(** [JobMatchingService.search_jobs], the second definition of that name
    in the class, which is the one the class keeps. *)
Definition search_jobs (embedding : list Q) (preferences : option (gmap string string))
    (limit : Z) : Eff.M Database (list match_dict) :=
  fun d =>
    match matching_init with
    | Raise e => (Raise e, d)
    | Ok _ =>
    match _get_repos with
    | Raise e => (Raise e, d)
    | Ok _ =>
        let location := if truthy_dict preferences
                        then preferences ≫= (fun p => p !! "location") else None in
        let service := if truthy_dict preferences
                       then preferences ≫= (fun p => p !! "service") else None in
        match Search.find_similar_jobs cosine_distance ilike embedding (7 # 10) limit
                location None service d with
        | Raise e => (Raise e, d)
        | Ok jobs_with_scores =>
            (Ok (map (fun js =>
                        {| d_job_id := id (fst js);
                           d_score := snd js;
                           d_job_title := job_title (fst js);
                           d_location := Models.location (fst js);
                           d_service := Models.service (fst js);
                           d_seniority := Models.seniority (fst js);
                           d_description := description (fst js) |})
                     jobs_with_scores), d)
        end
    end
    end.

(** The loop of [save_job_matches], [saved] being [saved_matches]. *)
Fixpoint save_loop (telegram_id : Z) (matches saved : list match_dict)
  : Eff.M Database (list match_dict) :=
  match matches with
  | [] => Eff.ret saved
  | m :: rest =>
      job_match <- (fun d => create_match (flush_match d) telegram_id
                               (d_job_id m) (d_score m) d) ;;
      save_loop telegram_id rest
        (saved ++ [ {| d_job_id := match_job_id job_match;
                       d_score := Models.score job_match;
                       d_job_title := d_job_title m;
                       d_location := d_location m;
                       d_service := d_service m;
                       d_seniority := d_seniority m;
                       d_description := d_description m |} ])
  end.

(** [JobMatchingService.save_job_matches] *)
Definition save_job_matches (telegram_id : Z) (matches : list match_dict)
  : Eff.M Database (list match_dict) :=
  fun d =>
    match matching_init with
    | Raise e => (Raise e, d)
    | Ok _ =>
    match _get_repos with
    | Raise e => (Raise e, d)
    | Ok _ => save_loop telegram_id matches [] d
    end
    end.

(** [JobMatchingService.generate_job_matches] *)
Definition generate_job_matches (telegram_id : Z) (cv_embedding : list Q)
    (preferences : option (gmap string string)) : Eff.M Database (list match_dict) :=
  fun d =>
    match matching_init with
    | Raise e => (Raise e, d)
    | Ok _ =>
        (matches <- search_jobs cv_embedding preferences 50 ;;
         save_job_matches telegram_id matches) d
    end.

(** [JobRecommendationService._should_generate_recommendations]: its first
    statement reads [user.last_recommendations], and [User] has no column
    and no attribute of that name. *)
Definition _should_generate_recommendations (now : Z) (user : User) : result bool :=
  Raise (AttributeError "User" "last_recommendations").

(** [JobRecommendationService.generate_recommendations]. In
    [not force and not self._should_generate_recommendations(user)] the
    test of the user is made only when [force] is false. *)
Definition generate_recommendations (now : Z) (telegram_id : Z)
    (cv_embedding : option (list Q)) (preferences : option (gmap string string))
    (force : bool) : Eff.M Database (list match_dict) :=
  Eff.try_except
    (fun d =>
       match recommendation_init with
       | Raise e => (Raise e, d)
       | Ok _ =>
       match get_by_telegram_id telegram_id d with
       | Raise e => (Raise e, d)
       | Ok None => (Raise (UserError (Msg "User not found") "USER_NOT_FOUND"), d)
       | Ok (Some user) =>
           let skip :=
             if force then Ok false
             else match _should_generate_recommendations now user with
                  | Ok should => Ok (negb should)
                  | Raise e => Raise e
                  end in
           match skip with
           | Raise e => (Raise e, d)
           | Ok true => (Ok [], d)
           | Ok false =>
               let embedding :=
                 if truthy_vector cv_embedding then Ok (default [] cv_embedding)
                 else if negb (truthy_vector (Models.cv_embedding user)) then
                   Raise (UserError (Msg "No CV embedding found") "NO_CV_EMBEDDING")
                 else Ok (default [] (Models.cv_embedding user)) in
               match embedding with
               | Raise e => (Raise e, d)
               | Ok embedding =>
                   let prefs :=
                     if truthy_dict preferences then preferences
                     else if truthy_dict (Models.preferences user)
                          then Models.preferences user
                          else Some ∅ in
                   generate_job_matches telegram_id embedding prefs d
               end
           end
       end
       end)
    except_SQLAlchemyError.

End Service.

End JobMatching.

(** ** [app/tasks/jobs.py] *)
Module Tasks.
Import Models.

(** The values of the dictionary a task returns. *)
Inductive value :=
| VBool (b : bool)
| VInt (n : Z).

Section UpdateJobEmbeddings.

(** [job_repo.get_jobs_needing_embedding_update(batch_size)], the read of
    the work queue. *)
Variable get_jobs_needing_embedding_update : Z -> Database -> result (list Job).
(** [OpenAIService.generate_embedding] *)
Variable openai_generate_embedding : string -> result (list Q).
(** Whether the flush in [job_repo.update(job)] raises for this row, and
    whether [db.commit()] raises. *)
Variable flush_fails : Job -> bool.
Variable commit_fails : bool.






End UpdateJobEmbeddings.

End Tasks.

(** ** Sequences of calls on the limiter *)
Module Calls.
Import RateLimit.

(** [acquire] called once at each of the times [ts] on a store that does
    not fail: the outcomes in order and the keys afterwards. *)
Fixpoint acquire_all (self : RateLimiter) (identifier : string) (ts : list Z)
    (d : gmap string Redis.entry) : list (result unit) * gmap string Redis.entry :=
  match ts with
  | [] => ([], d)
  | t :: ts' =>
      let '(r, d') := Redis.run (acquire self t identifier) [] d in
      let '(rs, d'') := acquire_all self identifier ts' d' in
      (r :: rs, d'')
  end.

(** A call of [get_limit_info]: its time, its identifier and how the
    connection behaves during it. *)
Record info_call := { at_time : Z; about : string; conn_faults : list bool }.

Definition info_calls (self : RateLimiter) (calls : list info_call)
    (d : gmap string Redis.entry) : gmap string Redis.entry :=
  foldl (fun d c =>
           snd (Redis.run (get_limit_info self (at_time c) (about c)) (conn_faults c) d))
        d calls.

(** The end of the clock-aligned window that contains [now]. *)
Definition window_end (self : RateLimiter) (now : Z) : Z :=
  now - now mod window_seconds self + window_seconds self.

(** What the [raise] statement for an exhausted budget raises, and below
    what the one for a failure of the store raises: in both cases the
    [AttributeError] of a [RateLimitError] that could not be constructed. *)
Definition exceeded (self : RateLimiter) (now : Z) : exn :=
  RateLimitError (MsgFmt "Rate limit exceeded. Reset in {}" [window_end self now - now]).

(** What [get_limit_info] reports at [now] on the keys [d]. *)
Definition info_at (self : RateLimiter) (now : Z) (identifier : string)
    (d : gmap string Redis.entry) : RateLimitInfo :=
  {| remaining :=
       match Redis.lookup now (_get_key self identifier) d with
       | None => max_requests self
       | Some e => Z.max 0 (max_requests self - Redis.value e)
       end;
     reset_at := window_end self now;
     total := max_requests self |}.

Definition check_failed : exn :=
  RateLimitError (Msg "Failed to check rate limit").

End Calls.

(** ** Sample data *)
Module Sample.
Import Models.

Definition mk_job (i : Z) (title loc : string) : Job :=
  {| id := i; job_title := title; seniority := "Senior"; service := "Audit";
     location := loc; description := title; is_indexed := true;
     embedding := None |}.

Definition jobA := mk_job 1 "Senior Auditor" "London".
Definition jobB := mk_job 2 "Tax Manager" "Leeds".
Definition jobC := mk_job 3 "Audit Associate" "London".

(** A user with a CV vector, and a user without any CV. *)
Definition alice : User :=
  {| user_id := 1; telegram_id := 7; cv_embedding := Some [1 # 1];
     preferences := None |}.
Definition bob : User :=
  {| user_id := 5; telegram_id := 8; cv_embedding := None;
     preferences := None |}.

Definition store : Database :=
  {| users := [alice; bob];
     cvs := [ {| cv_id := 1; cv_user_id := 1; raw_text := "auditor";
                 cv_vector := Some [1 # 1]; created_at := 10 |} ];
     jobs := [jobA; jobB; jobC];
     job_embeddings :=
       <[1 := Some [1 # 1]]> (<[2 := Some [0 # 1]]> (<[3 := Some [95 # 100]]> ∅));
     job_matches := [] |}.

(** A distance for which the similarity of a row is the first component of
    its vector. *)
Definition distance (e query : list Q) : Q :=
  match e with
  | x :: _ => 1 - x
  | [] => 1
  end.

Definition any_pattern (_ _ : string) : bool := true.

(** A database that answers: the user of that [telegram_id], and for a new
    row of [job_matches] the key after the number of rows. *)
Definition find_user (telegram_id : Z) (d : Database) : result (option User) :=
  Ok (List.find (fun u => Models.telegram_id u =? telegram_id) (users d)).
Definition next_key (d : Database) : result Z :=
  Ok (Z.of_nat (length (job_matches d)) + 1).

(** One token per character. *)
Definition char_tokens (s : string) : list Z :=
  map (fun a => Z.of_nat (nat_of_ascii a)) (list_ascii_of_string s).

(** A provider that answers every text with a vector of three components. *)
Definition short_vector : list Q := [1 # 10; 2 # 10; 3 # 10].
Definition acreate3 (_ : string) : result (list (list Q)) := Ok [short_vector].


(** A database that returns the rows of a statement without [ORDER BY] in
    the reverse of their order in the table. *)
Definition backwards (skip limit : Z) (rows : list Job) : list Job := rev rows.

End Sample.

(** ** More of [app/core/rate_limit.py], [app/services/base.py] and
    [app/services/embeddings.py]: the life cycle of the services *)
Module Services.

(** [PING] *)
Definition ping : Eff.M Redis.conn unit :=
  Redis.command (fun d => (tt, d)).

(** The fields of [BaseService] that [init] and [health_check] use. *)
Record BaseService := { initialized : bool; last_health_check : option Z }.

(** What the embedding service works on: the service object, the module
    level limiter and the connection to the store. *)
Record world := {
  service : BaseService;
  limiter : RateLimit.RateLimiter;
  store : Redis.conn
}.

Definition with_store (c : Redis.conn) (w : world) : world :=
  {| service := service w; limiter := limiter w; store := c |}.

(** A coroutine of the limiter or of the decorated function, run in the
    world. *)
Definition on_store {A} (m : RateLimit.RateLimiter -> Eff.M Redis.conn A)
  : Eff.M world A :=
  fun w => let '(r, c) := m (limiter w) (store w) in (r, with_store c w).

(** [RateLimiter.init]: [self.redis] is set, then the server is pinged; the
    handler logs and raises again. *)
Definition RateLimiter_init : Eff.M world unit :=
  fun w =>
    let self := limiter w in
    let w1 := {| service := service w;
                 limiter := {| RateLimit.key_prefix := RateLimit.key_prefix self;
                               RateLimit.max_requests := RateLimit.max_requests self;
                               RateLimit.window_seconds := RateLimit.window_seconds self;
                               RateLimit.connected := true |};
                 store := store w |} in
    on_store (fun _ => ping) w1.

(** [BaseService.health_check], [_check_health] being the check of the
    service. *)
Definition health_check (_check_health : Eff.M world bool) (now : Z)
  : Eff.M world bool :=
  fun w =>
    if negb (initialized (service w)) then (Ok false, w)
    else
      match _check_health w with
      | (Ok true, w') =>
          (Ok true, {| service := {| initialized := initialized (service w');
                                     last_health_check := Some now |};
                       limiter := limiter w'; store := store w' |})
      | (Ok false, w') => (Ok false, w')
      | (Raise _, w') => (Ok false, w')
      end.

Section EmbeddingService.

Variable encode : string -> list Z.
Variable acreate : string -> result (list (list Q)).

Definition generate_embedding (now : Z) (text : string) : Eff.M world (list Q) :=
  on_store (fun self => Embeddings.generate_embedding encode acreate self now text).

(** [EmbeddingService._init_resources] *)
Definition _init_resources (now : Z) : Eff.M world unit :=
  Eff.try_except
    (generate_embedding now "test" ;;; Eff.ret tt)
    (fun e => Some (Eff.raise e)).

(** [EmbeddingService.init], which replaces [BaseService.init]. *)
Definition init (now : Z) : Eff.M world unit :=
  RateLimiter_init ;;; _init_resources now.

(** [EmbeddingService._check_health] *)
Definition _check_health (now : Z) : Eff.M world bool :=
  Eff.try_except
    (generate_embedding now "health check" ;;; Eff.ret true)
    (fun _ => Some (Eff.ret false)).

End EmbeddingService.

End Services.

(** ** More of [app/repositories/job.py] *)
Module Repositories.
Import Models.


Section JobRepository.

Variable ilike : string -> string -> bool.
(** The order in which the database returns the rows that a statement
    without [ORDER BY] selects, the statement having that [OFFSET] and that
    [LIMIT]. *)
Variable scan : Z -> Z -> list Job -> list Job.
(** Whether the database fails on the statement of that rank among those
    that the call sends, the commit included. *)
Variable fails : nat -> bool.

(** [BaseRepository.get] on [JobsApp_job]; the handler logs and raises
    again. *)
Definition get (job_id : Z) (d : Database) : result (option Job) :=
  if fails 0%nat then Raise (StoreFailure "execute")
  else Ok (List.find (fun j => id j =? job_id) (jobs d)).

(** [JobRepository.get_jobs_without_embeddings] *)
Definition get_jobs_without_embeddings (limit : Z) (d : Database) : result (list Job) :=
  if fails 0%nat then Raise (StoreFailure "execute")
  else if limit <? 0 then Raise (StoreFailure "LIMIT must not be negative")
  else Ok (firstn (Z.to_nat limit)
             (scan 0 limit
                (List.filter (fun j => match embedding j with None => true | Some _ => false end)
                             (jobs d)))).

(** [JobRepository.update_embedding]: nothing is done when [get] finds no
    job; a commit that fails leaves the table as it was. *)
Definition update_embedding (job_id : Z) (e : list Q) : Eff.M Database unit :=
  fun d =>
    match get job_id d with
    | Raise x => (Raise x, d)
    | Ok None => (Ok tt, d)
    | Ok (Some _) =>
        if fails 1%nat then (Raise (StoreFailure "commit"), d)
        else (Ok tt, set_jobs (map (fun j => if id j =? job_id then with_embedding e j else j)
                                   (jobs d)) d)
    end.

(** The filters of [JobRepository.search_jobs], each applied when its
    argument is true. *)
Definition matches_filters (title location seniority service : option string)
    (j : Job) : bool :=
  Search.optional_filter ilike title (job_title j)
  && Search.optional_filter ilike location (Models.location j)
  && Search.optional_filter ilike seniority (Models.seniority j)
  && Search.optional_filter ilike service (Models.service j).

(** [JobRepository.search_jobs]: the count of the rows that pass the
    filters, then the page, of a statement that has [OFFSET] and [LIMIT]
    and no [ORDER BY]. *)
Definition search_jobs (title location seniority service : option string)
    (skip limit : Z) (d : Database) : result (list Job * Z) :=
  let filtered := List.filter (matches_filters title location seniority service) (jobs d) in
  if fails 0%nat then Raise (StoreFailure "execute")
  else
    let total := Z.of_nat (length filtered) in
    if fails 1%nat then Raise (StoreFailure "execute")
    else if skip <? 0 then Raise (StoreFailure "OFFSET must not be negative")
    else if limit <? 0 then Raise (StoreFailure "LIMIT must not be negative")
    else Ok (firstn (Z.to_nat limit) (skipn (Z.to_nat skip) (scan skip limit filtered)),
             total).

End JobRepository.

End Repositories.

(** ** Predicates on texts *)
Module Text.

Fixpoint all_space (s : string) : bool :=
  match s with
  | EmptyString => true
  | String c r => Embeddings.is_space c && all_space r
  end.

Definition starts_with_space (s : string) : bool :=
  match s with
  | EmptyString => false
  | String c _ => Embeddings.is_space c
  end.

Fixpoint ends_with_space (s : string) : bool :=
  match s with
  | EmptyString => false
  | String c EmptyString => Embeddings.is_space c
  | String _ r => ends_with_space r
  end.

Fixpoint has_newline (s : string) : bool :=
  match s with
  | EmptyString => false
  | String c r => Ascii.eqb c "010"%char || has_newline r
  end.

End Text.

(** * Properties *)

Local Open Scope list_scope.

(** ** The store commands on a connection that answers *)
Section RedisFacts.

Lemma command_quiet {A} (f : gmap string Redis.entry -> A * gmap string Redis.entry) d :
  Redis.command f (Redis.quiet d) = (Ok (fst (f d)), Redis.quiet (snd (f d))).
Proof. unfold Redis.command, Redis.quiet; cbn. destruct (f d); reflexivity. Qed.

Lemma incr_quiet now key d :
  Redis.incr now key (Redis.quiet d) =
  (Ok (Redis.counter now key d + 1),
   Redis.quiet (<[key := {| Redis.value := Redis.counter now key d + 1;
                      Redis.expire_at := Redis.lookup now key d ≫= Redis.expire_at |}]> d)).
Proof.
  unfold Redis.incr. rewrite command_quiet. unfold Redis.counter.
  destruct (Redis.lookup now key d); reflexivity.
Qed.

Lemma lookup_insert_live now key e (d : gmap string Redis.entry) :
  Redis.live now e = true ->
  Redis.lookup now key (<[key := e]> d) = Some e.
Proof.
  intros Hl. unfold Redis.lookup. rewrite lookup_insert_eq, Hl. reflexivity.
Qed.

Lemma lookup_insert_other now key key' e (d : gmap string Redis.entry) :
  key <> key' ->
  Redis.lookup now key' (<[key := e]> d) = Redis.lookup now key' d.
Proof.
  intros Hne. unfold Redis.lookup. rewrite lookup_insert_ne by exact Hne. reflexivity.
Qed.

Lemma lookup_live now key d e :
  Redis.lookup now key d = Some e -> Redis.live now e = true.
Proof.
  unfold Redis.lookup. destruct (d !! key) as [e'|]; [|discriminate].
  destruct (Redis.live now e') eqn:Hl; [|discriminate]. congruence.
Qed.

Lemma expireat_quiet now key t d e :
  Redis.lookup now key d = Some e -> now < t ->
  Redis.expireat now key t (Redis.quiet d) =
  (Ok true, Redis.quiet (<[key := {| Redis.value := Redis.value e;
                               Redis.expire_at := Some t |}]> d)).
Proof.
  intros Hl Ht. unfold Redis.expireat. rewrite command_quiet, Hl. cbn.
  destruct (Z.leb_spec t now); [lia|reflexivity].
Qed.

End RedisFacts.

(** ** The rate limiter *)
Section RateLimiterFacts.
Import RateLimit Calls.

Variable self : RateLimiter.
Hypothesis Hconnected : connected self = true.
Hypothesis Hwindow : 0 < window_seconds self.

Lemma window_end_after now : now < window_end self now.
Proof.
  unfold window_end.
  pose proof (Z.mod_pos_bound now (window_seconds self) Hwindow). lia.
Qed.

Lemma window_end_le now : window_end self now - now <= window_seconds self.
Proof.
  unfold window_end.
  pose proof (Z.mod_pos_bound now (window_seconds self) Hwindow). lia.
Qed.

Lemma window_start_quiet now c :
  window_start self now c = (Ok (now - now mod window_seconds self), c).
Proof.
  unfold window_start.
  destruct (Z.eqb_spec (window_seconds self) 0) as [E|_]; [lia|reflexivity].
Qed.

(** What [get_limit_info] does on a store that answers. *)
Lemma get_limit_info_quiet now identifier d :
  get_limit_info self now identifier (Redis.quiet d) = (Ok (info_at self now identifier d), Redis.quiet d).
Proof.
  unfold get_limit_info, info_at, window_end.
  rewrite Hconnected. cbn [negb].
  unfold Eff.bind. rewrite window_start_quiet.
  unfold Redis.get, Redis.ttl. rewrite command_quiet. cbn [fst snd].
  rewrite command_quiet. cbn [fst snd].
  destruct (Redis.lookup now (_get_key self identifier) d); reflexivity.
Qed.

(** What [acquire] does on a store that answers: the counter of the key
    goes up by one; a counter that starts a window expires at the end of
    the aligned window; the call fails when the new count is over the
    maximum. *)
Lemma acquire_quiet now identifier d :
  let key := _get_key self identifier in
  let count := Redis.counter now key d + 1 in
  acquire self now identifier (Redis.quiet d) =
  (if max_requests self <? count then Raise (exceeded self now) else Ok tt,
   Redis.quiet (<[key := {| Redis.value := count;
                      Redis.expire_at :=
                        if count =? 1 then Some (window_end self now)
                        else Redis.lookup now key d ≫= Redis.expire_at |}]> d)).
Proof.
  intros key count.
  pose proof (window_end_after now) as Hend.
  unfold acquire. rewrite Hconnected. cbn [negb].
  unfold Eff.bind at 1. rewrite window_start_quiet. fold key.
  unfold Eff.try_except, Eff.bind. rewrite incr_quiet. fold count.
  set (e1 := {| Redis.value := count;
                Redis.expire_at := Redis.lookup now key d ≫= Redis.expire_at |}).
  assert (Hlive1 : Redis.live now e1 = true).
  { unfold Redis.live, e1; cbn.
    destruct (Redis.lookup now key d) as [e|] eqn:Hl; [|reflexivity]. cbn.
    apply lookup_live in Hl. exact Hl. }
  destruct (count =? 1) eqn:Hc.
  - rewrite (expireat_quiet now key _ _ e1) by
      (first [apply lookup_insert_live; exact Hlive1 | exact Hend]).
    rewrite insert_insert_eq. cbn [Redis.value e1]. fold (window_end self now).
    unfold Eff.ret.
    destruct (max_requests self <? count); [|reflexivity].
    rewrite get_limit_info_quiet. unfold Eff.raise, exceeded. reflexivity.
  - unfold Eff.ret.
    destruct (max_requests self <? count); [|reflexivity].
    rewrite get_limit_info_quiet. unfold Eff.raise, exceeded. reflexivity.
Qed.

Lemma acquire_run now identifier d :
  let key := _get_key self identifier in
  let count := Redis.counter now key d + 1 in
  Redis.run (acquire self now identifier) [] d =
  (if max_requests self <? count then Raise (exceeded self now) else Ok tt,
   <[key := {| Redis.value := count;
               Redis.expire_at :=
                 if count =? 1 then Some (window_end self now)
                 else Redis.lookup now key d ≫= Redis.expire_at |}]> d).
Proof.
  intros key count. unfold Redis.run. fold (Redis.quiet d).
  rewrite acquire_quiet. fold key count.
  destruct (max_requests self <? count); reflexivity.
Qed.

Lemma counter_insert now key e (d : gmap string Redis.entry) :
  Redis.live now e = true ->
  Redis.counter now key (<[key := e]> d) = Redis.value e.
Proof.
  intros Hl. unfold Redis.counter. rewrite lookup_insert_live by exact Hl. reflexivity.
Qed.

Lemma counter_expired now key v t (d : gmap string Redis.entry) :
  d !! key = Some {| Redis.value := v; Redis.expire_at := Some t |} ->
  t <= now -> Redis.counter now key d = 0.
Proof.
  intros Hd Ht. unfold Redis.counter, Redis.lookup, Redis.live. rewrite Hd. cbn.
  destruct (Z.ltb_spec now t); [lia|reflexivity].
Qed.

(** The calls that follow the first one of a window: the key holds [n >= 1]
    and expires at the end [E] of the window that contains every call. *)
Lemma acquire_all_in_window identifier E ts : forall n d,
  1 <= n ->
  Forall (fun t => window_end self t = E) ts ->
  d !! _get_key self identifier =
    Some {| Redis.value := n; Redis.expire_at := Some E |} ->
  acquire_all self identifier ts d =
  (imap (fun i t => if max_requests self <? n + 1 + Z.of_nat i
                    then Raise (exceeded self t) else Ok tt) ts,
   <[_get_key self identifier :=
       {| Redis.value := n + Z.of_nat (length ts); Redis.expire_at := Some E |}]> d).
Proof.
  induction ts as [|t ts IH]; intros n d Hn Hts Hd.
  - cbn. rewrite Z.add_0_r. symmetry. rewrite insert_id; [reflexivity|exact Hd].
  - inversion Hts as [|? ? Ht Hts']; subst.
    cbn [acquire_all]. rewrite acquire_run.
    assert (Hlook : Redis.lookup t (_get_key self identifier) d =
                    Some {| Redis.value := n; Redis.expire_at := Some (window_end self t) |}).
    { unfold Redis.lookup, Redis.live. rewrite Hd. cbn.
      pose proof (window_end_after t).
      destruct (Z.ltb_spec t (window_end self t)); [reflexivity|lia]. }
    assert (Hcnt : Redis.counter t (_get_key self identifier) d = n).
    { unfold Redis.counter. rewrite Hlook. reflexivity. }
    rewrite Hcnt, Hlook. cbn [mbind option_bind Redis.expire_at].
    destruct (Z.eqb_spec (n + 1) 1) as [E1|_]; [lia|].
    rewrite (IH (n + 1)); [| lia | exact Hts' | apply lookup_insert_eq].
    rewrite insert_insert_eq. cbn [imap length].
    f_equal.
    + f_equal.
      * rewrite Z.add_0_r. reflexivity.
      * apply imap_ext. intros i x _. cbn.
        replace (n + 1 + 1 + Z.of_nat i) with (n + 1 + Z.of_nat (S i)) by lia.
        reflexivity.
    + replace (n + Z.of_nat (S (length ts))) with (n + 1 + Z.of_nat (length ts)) by lia. reflexivity.
Qed.

(** C3 (as amended). With a store that answers and a key that holds no
    live count at the first call: every call adds one to the counter; the
    first increment makes the key expire at the end of the clock-aligned
    window that contains the call, so its time to live is the window length
    less [now mod window_seconds]; of the calls made in that window, the
    first [max_requests] succeed and every later one, the
    [max_requests + 1]-th included, fails; once the window has ended a call
    succeeds again when [max_requests] is at least 1. *)
Theorem acquire_window_boundary identifier t1 ts d :
  Redis.counter t1 (_get_key self identifier) d = 0 ->
  Forall (fun t => window_end self t = window_end self t1) ts ->
  let key := _get_key self identifier in
  let first := Redis.run (acquire self t1 identifier) [] d in
  let all := acquire_all self identifier (t1 :: ts) d in
  snd first !! key =
    Some {| Redis.value := 1; Redis.expire_at := Some (window_end self t1) |}
  /\ fst (Redis.run (Redis.ttl t1 key) [] (snd first)) =
       Ok (window_seconds self - t1 mod window_seconds self)
  /\ (forall i t, (t1 :: ts) !! i = Some t ->
        exists r, fst all !! i = Some r
                  /\ is_ok r = (Z.of_nat i <? max_requests self))
  /\ snd all !! key =
       Some {| Redis.value := Z.of_nat (length (t1 :: ts));
               Redis.expire_at := Some (window_end self t1) |}
  /\ (forall t', window_end self t1 <= t' -> 1 <= max_requests self ->
        fst (Redis.run (acquire self t' identifier) [] (snd all)) = Ok tt).
Proof.
  intros Hfresh Hts key first all.
  assert (Hfirst : first =
            (if max_requests self <? 1 then Raise (exceeded self t1) else Ok tt,
             <[key := {| Redis.value := 1;
                         Redis.expire_at := Some (window_end self t1) |}]> d)).
  { subst first key. rewrite acquire_run, Hfresh. reflexivity. }
  assert (Hall : all =
            ((if max_requests self <? 1 then Raise (exceeded self t1) else Ok tt)
             :: imap (fun i t => if max_requests self <? 1 + 1 + Z.of_nat i
                                 then Raise (exceeded self t) else Ok tt) ts,
             <[key := {| Redis.value := 1 + Z.of_nat (length ts);
                         Redis.expire_at := Some (window_end self t1) |}]> d)).
  { subst all. cbn [acquire_all]. fold first. rewrite Hfirst. subst key.
    rewrite (acquire_all_in_window identifier (window_end self t1) ts 1);
      [| lia | exact Hts | apply lookup_insert_eq ].
    rewrite insert_insert_eq. reflexivity. }
  rewrite Hfirst, Hall. cbn [fst snd].
  split; [apply lookup_insert_eq|].
  split.
  { unfold Redis.run, Redis.ttl. fold (Redis.quiet (<[key:={| Redis.value := 1;
       Redis.expire_at := Some (window_end self t1) |}]> d)).
    rewrite command_quiet. cbn [fst snd].
    rewrite lookup_insert_live.
    - cbn. unfold window_end. f_equal. lia.
    - unfold Redis.live; cbn. pose proof (window_end_after t1).
      destruct (Z.ltb_spec t1 (window_end self t1)); [reflexivity|lia]. }
  split.
  { intros [|i] t Hi.
    - cbn in Hi. injection Hi as <-. eexists. split; [reflexivity|].
      change (Z.of_nat 0) with 0.
      destruct (Z.ltb_spec (max_requests self) 1), (Z.ltb_spec 0 (max_requests self));
        first [reflexivity | lia].
    - change ((t1 :: ts) !! S i) with (ts !! i) in Hi.
      eexists. split.
      + match goal with
        | |- (?x :: ?l) !! S i = _ => change ((x :: l) !! S i) with (l !! i)
        end.
        rewrite list_lookup_imap, Hi. reflexivity.
      + destruct (Z.ltb_spec (max_requests self) (1 + 1 + Z.of_nat i)),
                 (Z.ltb_spec (Z.of_nat (S i)) (max_requests self));
          first [reflexivity | lia]. }
  split.
  { rewrite lookup_insert_eq. cbn [length]. do 2 f_equal. lia. }
  intros t' Ht' HL. rewrite acquire_run. cbn [fst]. fold key.
  rewrite (counter_expired t' key (1 + Z.of_nat (length ts)) (window_end self t1));
    [| apply lookup_insert_eq | exact Ht' ].
  destruct (Z.ltb_spec (max_requests self) (0 + 1)); [lia|reflexivity].
Qed.

(** *** Failures of the store *)

Lemma command_used {A} (f : gmap string Redis.entry -> A * gmap string Redis.entry) c r c' :
  Redis.command f c = (r, c') ->
  exists used, Redis.faults c = used ++ Redis.faults c'
    /\ ((In true used /\ r = Raise RedisError /\ Redis.db c' = Redis.db c)
        \/ (~ In true used /\ r = Ok (fst (f (Redis.db c)))
            /\ Redis.db c' = snd (f (Redis.db c)))).
Proof.
  unfold Redis.command. destruct (Redis.faults c) as [|[] rest] eqn:Hf.
  - destruct (f (Redis.db c)) as [a d']. intros [= <- <-]. exists []. cbn.
    split; [reflexivity|]. right. repeat split; auto.
  - intros [= <- <-]. exists [true]. cbn. split; [reflexivity|]. left. auto.
  - destruct (f (Redis.db c)) as [a d']. intros [= <- <-]. exists [false]. cbn.
    split; [reflexivity|]. right. repeat split; auto. intros [H|[]]; discriminate.
Qed.

Lemma get_limit_info_used now identifier c r c' :
  get_limit_info self now identifier c = (r, c') ->
  Redis.db c' = Redis.db c
  /\ exists used, Redis.faults c = used ++ Redis.faults c'
       /\ ((In true used /\ r = Raise RedisError)
           \/ (~ In true used /\ r = Ok (info_at self now identifier (Redis.db c)))).
Proof.
  unfold get_limit_info. rewrite Hconnected. cbn [negb].
  unfold Eff.bind at 1. rewrite window_start_quiet.
  unfold Eff.bind at 1.
  destruct (Redis.get now (_get_key self identifier) c) as [r1 c1] eqn:H1.
  apply command_used in H1 as (u1 & Hu1 & [(Hin & -> & Hd1)|(Hnin & -> & Hd1)]).
  - intros [= <- <-]. split; [exact Hd1|]. exists u1. split; [exact Hu1|]. left; auto.
  - cbn [fst snd] in Hd1. unfold Eff.bind at 1.
    destruct (Redis.ttl now (_get_key self identifier) c1) as [r2 c2] eqn:H2.
    apply command_used in H2 as (u2 & Hu2 & [(Hin & -> & Hd2)|(Hnin2 & -> & Hd2)]).
    + intros [= <- <-]. split; [congruence|]. exists (u1 ++ u2).
      split; [rewrite Hu1, Hu2, app_assoc; reflexivity|]. left.
      split; [apply in_or_app; auto | reflexivity].
    + cbn [fst snd] in Hd2. cbn [fst]. intros Hr.
      assert (Hrc : r = Ok (info_at self now identifier (Redis.db c)) /\ c' = c2).
      { unfold info_at, window_end.
        destruct (Redis.lookup now (_get_key self identifier) (Redis.db c));
          cbn in Hr; injection Hr as <- <-; split; reflexivity. }
      destruct Hrc as [-> ->]. split; [congruence|].
      exists (u1 ++ u2). split; [rewrite Hu1, Hu2, app_assoc; reflexivity|]. right.
      split; [intros Hin; apply in_app_or in Hin as [?|?]; auto | reflexivity].
Qed.

Lemma acquire_used now identifier c r c' :
  acquire self now identifier c = (r, c') ->
  exists used, Redis.faults c = used ++ Redis.faults c'
    /\ (In true used -> r = Raise check_failed).
Proof.
  unfold acquire. rewrite Hconnected. cbn [negb].
  unfold Eff.bind at 1. rewrite window_start_quiet.
  unfold Eff.try_except. unfold Eff.bind at 1.
  destruct (Redis.incr now (_get_key self identifier) c) as [r1 c1] eqn:H1.
  apply command_used in H1 as (u1 & Hu1 & [(Hin & -> & Hd1)|(Hnin & -> & Hd1)]).
  { intros [= <- <-]. exists u1. split; [exact Hu1|]. reflexivity. }
  set (count := fst _). unfold Eff.bind at 1.
  assert (Hstep : exists u2 c2, Redis.faults c1 = u2 ++ Redis.faults c2 /\
            ((In true u2 /\
              (if count =? 1
               then Eff.bind (Redis.expireat now (_get_key self identifier)
                                (now - now mod window_seconds self + window_seconds self))
                             (fun _ => Eff.ret tt)
               else Eff.ret tt) c1 = (Raise RedisError, c2))
             \/ (~ In true u2 /\
                 (if count =? 1
                  then Eff.bind (Redis.expireat now (_get_key self identifier)
                                   (now - now mod window_seconds self + window_seconds self))
                                (fun _ => Eff.ret tt)
                  else Eff.ret tt) c1 = (Ok tt, c2)))).
  { destruct (count =? 1).
    - unfold Eff.bind.
      destruct (Redis.expireat now (_get_key self identifier)
                  (now - now mod window_seconds self + window_seconds self) c1)
        as [r2 c2] eqn:H2.
      apply command_used in H2 as (u2 & Hu2 & [(Hin & -> & _)|(Hnin2 & -> & _)]).
      + exists u2, c2. split; [exact Hu2|]. left; auto.
      + exists u2, c2. split; [exact Hu2|]. right; auto.
    - exists [], c1. split; [reflexivity|]. right. split; [intros []|reflexivity]. }
  destruct Hstep as (u2 & c2 & Hu2 & [(Hin2 & ->)|(Hnin2 & ->)]).
  { intros [= <- <-]. exists (u1 ++ u2).
    split; [rewrite Hu1, Hu2, app_assoc; reflexivity|]. reflexivity. }
  destruct (max_requests self <? count).
  - unfold Eff.bind.
    destruct (get_limit_info self now identifier c2) as [r3 c3] eqn:H3.
    apply get_limit_info_used in H3 as (_ & u3 & Hu3 & [(Hin3 & ->)|(Hnin3 & ->)]).
    + intros [= <- <-]. exists (u1 ++ u2 ++ u3).
      split; [rewrite Hu1, Hu2, Hu3, !app_assoc; reflexivity|]. reflexivity.
    + unfold Eff.raise. intros [= <- <-]. exists (u1 ++ u2 ++ u3).
      split; [rewrite Hu1, Hu2, Hu3, !app_assoc; reflexivity|].
      intros Hin. apply in_app_or in Hin as [?|Hin]; [tauto|].
      apply in_app_or in Hin as [?|?]; tauto.
  - unfold Eff.ret. intros [= <- <-]. exists (u1 ++ u2).
    split; [rewrite Hu1, Hu2, app_assoc; reflexivity|].
    intros Hin. apply in_app_or in Hin as [?|?]; tauto.
Qed.

(** An [acquire] that fails keeps the decorated function from running. *)
Lemma rate_limited_blocked {A} (func : Eff.M Redis.conn A) name now c e c' :
  acquire self now name c = (Raise e, c') ->
  rate_limited self name func now c = (Raise e, c').
Proof.
  intros H. unfold rate_limited, Eff.try_except, Eff.bind. rewrite H.
  destruct e; reflexivity.
Qed.

Lemma rate_limited_passed {A} (func : Eff.M Redis.conn A) name now c c' :
  acquire self now name c = (Ok tt, c') ->
  rate_limited self name func now c = func c'.
Proof.
  intros H. unfold rate_limited, Eff.try_except, Eff.bind. rewrite H.
  destruct (func c') as [[a|e] c'']; [reflexivity|]. destruct e; reflexivity.
Qed.

(** C8 (as amended). Whatever command of the store fails during
    [acquire], the call fails and the decorated function is not run: the
    outcome of the decorated call is the failure of [acquire]. A failure
    of the first command leaves the counter as it was. *)
Theorem acquire_fails_closed now identifier fs d :
  let c := {| Redis.db := d; Redis.faults := fs |} in
  let out := acquire self now identifier c in
  (exists used, fs = used ++ Redis.faults (snd out)
     /\ (In true used ->
         exists e, fst out = Raise e
           /\ forall A (func : Eff.M Redis.conn A),
                rate_limited self identifier func now c = (Raise e, snd out)))
  /\ (forall fs', fs = true :: fs' ->
        exists e, out = (Raise e, {| Redis.db := d; Redis.faults := fs' |})).
Proof.
  intros c out. split.
  - destruct out as [r c'] eqn:Hout. subst out.
    destruct (acquire_used _ _ _ _ _ Hout) as (used & Hu & Hfail).
    exists used. split; [exact Hu|]. intros Hin. cbn [fst snd].
    specialize (Hfail Hin). subst r. exists check_failed. split; [reflexivity|].
    intros A func. apply rate_limited_blocked. exact Hout.
  - intros fs' ->. subst out c. unfold acquire. rewrite Hconnected. cbn [negb].
    unfold Eff.bind at 1. rewrite window_start_quiet. eexists. reflexivity.
Qed.

(** *** [get_limit_info] *)

Lemma get_limit_info_keeps_db now identifier c :
  Redis.db (snd (get_limit_info self now identifier c)) = Redis.db c.
Proof.
  destruct (get_limit_info self now identifier c) as [r c'] eqn:H.
  apply get_limit_info_used in H as [H _]. exact H.
Qed.

Lemma get_limit_info_run_keeps now identifier fs d :
  snd (Redis.run (get_limit_info self now identifier) fs d) = d.
Proof.
  unfold Redis.run.
  pose proof (get_limit_info_keeps_db now identifier
                {| Redis.db := d; Redis.faults := fs |}) as H.
  destruct (get_limit_info self now identifier _) as [r c']. exact H.
Qed.

Lemma info_calls_keep calls : forall d, info_calls self calls d = d.
Proof.
  unfold info_calls.
  induction calls as [|call calls IH]; intros d; cbn [foldl]; [reflexivity|].
  rewrite get_limit_info_run_keeps. apply IH.
Qed.

(** C9. [get_limit_info] reports [max_requests] less the live count of the
    key, never below 0, with the end of the current window as reset time,
    and writes nothing to the store, whether the store answers or not: any
    number of such calls leaves the outcome and the effect of a later
    [acquire] as they would have been. *)
Theorem get_limit_info_read_only now identifier d :
  0 <= max_requests self ->
  let key := _get_key self identifier in
  Redis.run (get_limit_info self now identifier) [] d =
    (Ok {| remaining := Z.max 0 (max_requests self - Redis.counter now key d);
           reset_at := window_end self now;
           total := max_requests self |}, d)
  /\ 0 <= Z.max 0 (max_requests self - Redis.counter now key d)
  /\ (forall fs, snd (Redis.run (get_limit_info self now identifier) fs d) = d)
  /\ (forall calls now' identifier' fs',
        Redis.run (acquire self now' identifier') fs' (info_calls self calls d) =
        Redis.run (acquire self now' identifier') fs' d).
Proof.
  intros Hmax key. split; [|split; [|split]].
  - unfold Redis.run. fold (Redis.quiet d). rewrite get_limit_info_quiet.
    cbn [Redis.db Redis.quiet]. f_equal. unfold info_at, Redis.counter. fold key.
    destruct (Redis.lookup now key d); cbn; [reflexivity|].
    do 2 f_equal. lia.
  - lia.
  - intros fs. apply get_limit_info_run_keeps.
  - intros calls now' identifier' fs'. rewrite info_calls_keep. reflexivity.
Qed.

(** *** The decorated [generate_embedding] *)

(** C10. On a store that answers, every call of [generate_embedding] adds
    exactly one to the counter of the key of the function, whatever the
    text and whatever the outcome; the limiter is consulted first: over
    the maximum the call fails without looking at the text, and otherwise
    the outcome is the one of the body, so that a call with a text that
    fails validation fails and has used one request of the budget. *)
Theorem generate_embedding_consumes_budget
    (encode : string -> list Z) (acreate : string -> result (list (list Q)))
    now text d :
  let key := _get_key self "generate_embedding" in
  let out := Redis.run (Embeddings.generate_embedding encode acreate self now text) [] d in
  Redis.counter now key (snd out) = Redis.counter now key d + 1
  /\ (max_requests self < Redis.counter now key d + 1 ->
      is_ok (fst out) = false)
  /\ (Redis.counter now key d + 1 <= max_requests self ->
      fst out = Embeddings.generate_embedding_body encode acreate text)
  /\ (is_ok (Embeddings._validate_text encode text) = false ->
      is_ok (fst out) = false).
Proof.
  intros key out.
  pose proof (acquire_quiet now "generate_embedding" d) as Hacq. cbv zeta in Hacq.
  fold key in Hacq.
  set (e1 := {| Redis.value := Redis.counter now key d + 1;
                Redis.expire_at :=
                  if Redis.counter now key d + 1 =? 1 then Some (window_end self now)
                  else Redis.lookup now key d ≫= Redis.expire_at |}) in *.
  assert (Hlive : Redis.live now e1 = true).
  { unfold Redis.live, e1; cbn.
    destruct (Redis.counter now key d + 1 =? 1).
    - pose proof (window_end_after now).
      destruct (Z.ltb_spec now (window_end self now)); [reflexivity|lia].
    - destruct (Redis.lookup now key d) as [e|] eqn:Hl; [|reflexivity]. cbn.
      apply lookup_live in Hl. exact Hl. }
  assert (Hout : out =
            (if max_requests self <? Redis.counter now key d + 1
             then Raise (exceeded self now)
             else Embeddings.generate_embedding_body encode acreate text,
             <[key := e1]> d)).
  { subst out. unfold Redis.run, Embeddings.generate_embedding.
    fold (Redis.quiet d).
    destruct (max_requests self <? Redis.counter now key d + 1).
    - rewrite (rate_limited_blocked _ _ _ _ _ _ Hacq). reflexivity.
    - rewrite (rate_limited_passed _ _ _ _ _ Hacq). reflexivity. }
  rewrite Hout. cbn [fst snd].
  split; [apply counter_insert; exact Hlive|].
  split; [|split].
  - intros H. destruct (Z.ltb_spec (max_requests self) (Redis.counter now key d + 1));
      [reflexivity|lia].
  - intros H. destruct (Z.ltb_spec (max_requests self) (Redis.counter now key d + 1));
      [lia|reflexivity].
  - intros He.
    destruct (max_requests self <? Redis.counter now key d + 1); [reflexivity|].
    unfold Embeddings.generate_embedding_body.
    destruct (Embeddings._validate_text encode text); [discriminate|reflexivity].
Qed.

End RateLimiterFacts.

(** A limiter of 2 requests per 60 seconds, first called at second 90. *)
Lemma acquire_window_boundary_witness :
  let self := RateLimit.OpenAIRateLimiter 2 true in
  let key := RateLimit._get_key self "f" in
  let first := Redis.run (RateLimit.acquire self 90 "f") [] ∅ in
  let all := Calls.acquire_all self "f" [90; 100; 119] ∅ in
  snd first !! key =
    Some {| Redis.value := 1; Redis.expire_at := Some (Calls.window_end self 90) |}
  /\ fst (Redis.run (Redis.ttl 90 key) [] (snd first)) =
       Ok (RateLimit.window_seconds self - 90 mod RateLimit.window_seconds self)
  /\ (forall i t, [90; 100; 119] !! i = Some t ->
        exists r, fst all !! i = Some r
                  /\ is_ok r = (Z.of_nat i <? RateLimit.max_requests self))
  /\ snd all !! key =
       Some {| Redis.value := Z.of_nat (length [90; 100; 119]);
               Redis.expire_at := Some (Calls.window_end self 90) |}
  /\ (forall t', Calls.window_end self 90 <= t' -> 1 <= RateLimit.max_requests self ->
        fst (Redis.run (RateLimit.acquire self t' "f") [] (snd all)) = Ok tt).
Proof.
  apply (acquire_window_boundary (RateLimit.OpenAIRateLimiter 2 true)
           eq_refl ltac:(cbn; lia) "f" 90 [100; 119] ∅).
  - reflexivity.
  - repeat constructor.
Defined.

(** Against C3 as stated: the time to live that the first increment sets
    is the rest of the aligned window, here 30 seconds of a window of 60, and three calls
    within 60 seconds of the first increment all pass a limit of 2 when
    the aligned window ends in between. *)
Lemma acquire_expiry_is_not_window_length :
  let self := RateLimit.OpenAIRateLimiter 2 true in
  let first := Redis.run (RateLimit.acquire self 90 "f") [] ∅ in
  fst first = Ok tt
  /\ fst (Redis.run (Redis.ttl 90 "openai:f") [] (snd first)) = Ok 30
  /\ RateLimit.window_seconds self = 60
  /\ fst (Calls.acquire_all self "f" [90; 100; 125] ∅) = [Ok tt; Ok tt; Ok tt].
Proof. vm_compute. repeat split; reflexivity. Qed.

Lemma acquire_fails_closed_witness :
  let self := RateLimit.OpenAIRateLimiter 2 true in
  let c := {| Redis.db := ∅; Redis.faults := [true] |} in
  let out := RateLimit.acquire self 90 "f" c in
  (exists used, [true] = used ++ Redis.faults (snd out)
     /\ (In true used ->
         exists e, fst out = Raise e
           /\ forall A (func : Eff.M Redis.conn A),
                RateLimit.rate_limited self "f" func 90 c = (Raise e, snd out)))
  /\ (forall fs', [true] = true :: fs' ->
        exists e, out = (Raise e, {| Redis.db := ∅; Redis.faults := fs' |})).
Proof.
  exact (acquire_fails_closed (RateLimit.OpenAIRateLimiter 2 true)
           eq_refl ltac:(cbn; lia) 90 "f" [true] ∅).
Defined.

(** Against C8 as stated: the call made while the store fails and the
    call made with the budget used up raise one and the same exception,
    which is not a [RateLimitError] either: nothing tells the first from
    the second. *)
Lemma store_failure_not_a_distinct_class :
  let self := RateLimit.OpenAIRateLimiter 2 true in
  let unavailable := fst (Redis.run (RateLimit.acquire self 90 "f") [true] ∅) in
  let exhausted := fst (Redis.run (RateLimit.acquire self 90 "f") []
                          {[ "openai:f" := {| Redis.value := 2; Redis.expire_at := Some 120 |} ]}) in
  unavailable = Raise (AttributeError "RateLimitError" "context")
  /\ exhausted = Raise (AttributeError "RateLimitError" "context")
  /\ unavailable = exhausted.
Proof. vm_compute. repeat split; reflexivity. Qed.

Lemma get_limit_info_read_only_witness :
  let self := RateLimit.OpenAIRateLimiter 2 true in
  let d : gmap string Redis.entry :=
    {[ "openai:f" := {| Redis.value := 1; Redis.expire_at := Some 120 |} ]} in
  let key := RateLimit._get_key self "f" in
  Redis.run (RateLimit.get_limit_info self 90 "f") [] d =
    (Ok {| RateLimit.remaining :=
             Z.max 0 (RateLimit.max_requests self - Redis.counter 90 key d);
           RateLimit.reset_at := Calls.window_end self 90;
           RateLimit.total := RateLimit.max_requests self |}, d)
  /\ 0 <= Z.max 0 (RateLimit.max_requests self - Redis.counter 90 key d)
  /\ (forall fs, snd (Redis.run (RateLimit.get_limit_info self 90 "f") fs d) = d)
  /\ (forall calls now' identifier' fs',
        Redis.run (RateLimit.acquire self now' identifier') fs' (Calls.info_calls self calls d) =
        Redis.run (RateLimit.acquire self now' identifier') fs' d).
Proof.
  exact (get_limit_info_read_only (RateLimit.OpenAIRateLimiter 2 true)
           eq_refl ltac:(cbn; lia) 90 "f" _ ltac:(cbn; lia)).
Defined.

(** A tokenizer of one token per character and a provider that answers
    with one vector; the empty text fails validation. *)
Lemma generate_embedding_consumes_budget_witness :
  let self := RateLimit.OpenAIRateLimiter 2 true in
  let encode := fun s : string => map (fun a => Z.of_nat (nat_of_ascii a)) (list_ascii_of_string s) in
  let acreate := fun _ : string => Ok [[1 # 2]] in
  let key := RateLimit._get_key self "generate_embedding" in
  let out := Redis.run (Embeddings.generate_embedding encode acreate self 90 "") [] ∅ in
  Redis.counter 90 key (snd out) = Redis.counter 90 key ∅ + 1
  /\ (RateLimit.max_requests self < Redis.counter 90 key ∅ + 1 ->
      is_ok (fst out) = false)
  /\ (Redis.counter 90 key ∅ + 1 <= RateLimit.max_requests self ->
      fst out = Embeddings.generate_embedding_body encode acreate "")
  /\ (is_ok (Embeddings._validate_text encode "") = false ->
      is_ok (fst out) = false).
Proof.
  exact (generate_embedding_consumes_budget (RateLimit.OpenAIRateLimiter 2 true)
           eq_refl ltac:(cbn; lia) _ _ 90 "" ∅).
Defined.

(** ** The similarity search *)
Section SearchFacts.
Import Models Search.






Variable cosine_distance : list Q -> list Q -> Q.



End SearchFacts.


(** Scenario of the specification: of the rows A (1), B (0) and C (0.95),
    a threshold of 0.9 keeps A and C, best first. *)
Example select_similar_scenario :
  Search.select_similar Sample.distance (fun _ => true) [1 # 1] (9 # 10) 10 Sample.store
  = Ok [(Sample.jobA, 1 # 1); (Sample.jobC, 95 # 100)].
Proof. vm_compute. reflexivity. Qed.

(** ** The embedding client *)

(** Against C4 as stated: the provider answers a valid text with a vector
    of three components, and [generate_embedding], called through its
    decorator, returns it. *)
Lemma generate_embedding_returns_short_vector :
  fst (Redis.run (Embeddings.generate_embedding Sample.char_tokens Sample.acreate3
                    (RateLimit.OpenAIRateLimiter 60 true) 90 "test") [] ∅)
    = Ok Sample.short_vector
  /\ length Sample.short_vector = 3%nat
  /\ length Sample.short_vector <> VectorSearch.dimension.
Proof.
  split; [vm_compute; reflexivity|]. split; [reflexivity|].
  unfold VectorSearch.dimension. cbn. lia.
Qed.

(** C5. A text of three spaces is not empty, so the first test lets it
    through; cleaning leaves the empty text, which has no token and passes
    the length test: validation answers the empty text, and the provider is
    called with it. *)
Lemma validate_text_accepts_blank_text :
  Embeddings.strip (Embeddings.replace_newlines "   ") = ""
  /\ Embeddings._validate_text Sample.char_tokens "   " = Ok ""
  /\ Embeddings.generate_embedding_body Sample.char_tokens Sample.acreate3 "   "
     = Ok Sample.short_vector.
Proof. vm_compute. repeat split; reflexivity. Qed.

(** ** The matching services *)
Section MatchingFacts.
Import Models JobMatching.

Variable cosine_distance : list Q -> list Q -> Q.
Variable ilike : string -> string -> bool.
Variable select_user : Z -> Database -> result (option User).
Variable flush_match : Database -> result Z.
Variable recommendation_init : result unit.
Variable matching_init : result unit.

(** The search of the matching service fails before any statement is
    sent, and leaves the store as it is. *)
Lemma search_jobs_raises embedding preferences limit d :
  exists e, search_jobs cosine_distance ilike matching_init embedding preferences limit d
            = (Raise e, d).
Proof.
  unfold search_jobs. destruct matching_init as [[]|e]; eexists; reflexivity.
Qed.

Lemma generate_job_matches_raises telegram_id embedding preferences d :
  exists e, generate_job_matches cosine_distance ilike flush_match matching_init
              telegram_id embedding preferences d = (Raise e, d).
Proof.
  unfold generate_job_matches. destruct matching_init as [[]|e] eqn:Hinit.
  - unfold Eff.bind.
    destruct (search_jobs_raises embedding preferences 50 d) as [e He].
    rewrite Hinit in He. rewrite He. exists e. reflexivity.
  - eexists; reflexivity.
Qed.

(** Every run of [generate_recommendations] ends in the handler of its
    [try], and so in the same [NameError]; the store is as it was. *)
Lemma generate_recommendations_raises now telegram_id cv_embedding preferences force d :
  generate_recommendations cosine_distance ilike select_user flush_match
    recommendation_init matching_init now telegram_id cv_embedding preferences force d
  = (Raise (NameError "SQLAlchemyError"), d).
Proof.
  unfold generate_recommendations, Eff.try_except, except_SQLAlchemyError, Eff.raise.
  destruct recommendation_init as [[]|e0]; [|reflexivity].
  unfold get_by_telegram_id.
  destruct (select_user telegram_id d) as [[user|]|e1]; [|reflexivity|reflexivity].
  destruct force; cbn [_should_generate_recommendations]; [|reflexivity].
  destruct (truthy_vector cv_embedding).
  - match goal with
    | |- context [generate_job_matches _ _ _ _ ?t ?e ?p d] =>
        destruct (generate_job_matches_raises t e p d) as [x ->]
    end. reflexivity.
  - destruct (truthy_vector (Models.cv_embedding user)); cbn [negb]; [|reflexivity].
    match goal with
    | |- context [generate_job_matches _ _ _ _ ?t ?e ?p d] =>
        destruct (generate_job_matches_raises t e p d) as [x ->]
    end. reflexivity.
Qed.

End MatchingFacts.

(** C1. Whatever the user, the times, the arguments and the answers of the
    database and of the services during each of the two runs, a second run
    of [generate_recommendations] after a first one leaves in [job_matches]
    the records that the first one left: it persists no record and so no
    duplicate. This holds because no run persists anything: each one
    raises, and the store after the first run is the store before it. *)
Theorem generate_recommendations_twice_same_records
    (cosine_distance : list Q -> list Q -> Q) (ilike : string -> string -> bool)
    (select_user1 select_user2 : Z -> Models.Database -> result (option Models.User))
    (flush_match1 flush_match2 : Models.Database -> result Z)
    (recommendation_init1 recommendation_init2 matching_init1 matching_init2 : result unit)
    now1 now2 telegram_id cv_embedding1 cv_embedding2 preferences1 preferences2
    force1 force2 d :
  let first := JobMatching.generate_recommendations cosine_distance ilike
                 select_user1 flush_match1 recommendation_init1 matching_init1
                 now1 telegram_id cv_embedding1 preferences1 force1 d in
  let second := JobMatching.generate_recommendations cosine_distance ilike
                  select_user2 flush_match2 recommendation_init2 matching_init2
                  now2 telegram_id cv_embedding2 preferences2 force2 (snd first) in
  Models.job_matches (snd second) = Models.job_matches (snd first)
  /\ snd second = snd first
  /\ snd first = d
  /\ is_ok (fst first) = false
  /\ is_ok (fst second) = false.
Proof.
  intros first second. subst first second.
  rewrite !generate_recommendations_raises. cbn [fst snd is_ok]. auto.
Qed.

(** C6. Bob (telegram id 8, user id 5) has no CV. [match_jobs_for_user],
    [generate_recommendations], forced or not, and [refresh_job_matches]
    all fail for him and store nothing, but with the exceptions with which
    they fail for Alice, who has a CV and a vector: a [NameError] and the
    [AttributeError] of a [DatabaseError] that could not be constructed.
    No error that names the missing CV or the missing vector reaches the
    caller. *)
Lemma missing_document_error_never_raised :
  let recommend := JobMatching.generate_recommendations Sample.distance
                     Sample.any_pattern Sample.find_user Sample.next_key (Ok tt) (Ok tt) in
  JobMatching.match_jobs_for_user 8 10 Sample.store
    = (Raise (NameError "SQLAlchemyError"), Sample.store)
  /\ JobMatching.match_jobs_for_user 7 10 Sample.store
     = (Raise (NameError "SQLAlchemyError"), Sample.store)
  /\ recommend 1000 8 None None false Sample.store
     = (Raise (NameError "SQLAlchemyError"), Sample.store)
  /\ recommend 1000 8 None None true Sample.store
     = (Raise (NameError "SQLAlchemyError"), Sample.store)
  /\ recommend 1000 7 None None true Sample.store
     = (Raise (NameError "SQLAlchemyError"), Sample.store)
  /\ VectorSearch.refresh_job_matches 5 (7 # 10) 50 Sample.store
     = Raise (AttributeError "DatabaseError" "context")
  /\ VectorSearch.refresh_job_matches 1 (7 # 10) 50 Sample.store
     = Raise (AttributeError "DatabaseError" "context").
Proof. vm_compute. repeat split; reflexivity. Qed.

(** ** The embedding refresh task *)
Section TaskFacts.
Import Models Tasks.

Variable get_jobs_needing_embedding_update : Z -> Database -> result (list Job).
Variable openai_generate_embedding : string -> result (list Q).
Variable flush_fails : Job -> bool.
Variable commit_fails : bool.



End TaskFacts.



(** * Further properties *)

(** ** The rate limiter: identifiers, reports and lost expiries *)
Section RateLimiterMore.
Import RateLimit Calls.

Variable self : RateLimiter.
Hypothesis Hconnected : connected self = true.
Hypothesis Hwindow : 0 < window_seconds self.

Lemma append_cancel_l (p a b : string) : (p ++ a = p ++ b)%string -> a = b.
Proof.
  induction p as [|c p IH]; cbn; intros H; [exact H|].
  injection H as H. apply IH. exact H.
Qed.

Lemma get_key_injective a b : _get_key self a = _get_key self b -> a = b.
Proof.
  unfold _get_key. intros H. apply append_cancel_l in H.
  cbn in H. injection H as H. exact H.
Qed.

Lemma command_frame {A} key (f : gmap string Redis.entry -> A * gmap string Redis.entry)
    c r c' :
  (forall d k, k <> key -> snd (f d) !! k = d !! k) ->
  Redis.command f c = (r, c') ->
  forall k, k <> key -> Redis.db c' !! k = Redis.db c !! k.
Proof.
  intros Hf H k Hk.
  apply command_used in H as (_ & _ & [(_ & _ & ->)|(_ & _ & ->)]); [reflexivity|].
  apply Hf. exact Hk.
Qed.

Lemma incr_frame now key c r c' :
  Redis.incr now key c = (r, c') ->
  forall k, k <> key -> Redis.db c' !! k = Redis.db c !! k.
Proof.
  apply command_frame. intros d k Hk.
  destruct (Redis.lookup now key d); cbn; apply lookup_insert_ne; congruence.
Qed.

Lemma expireat_frame now key t c r c' :
  Redis.expireat now key t c = (r, c') ->
  forall k, k <> key -> Redis.db c' !! k = Redis.db c !! k.
Proof.
  apply command_frame. intros d k Hk.
  destruct (Redis.lookup now key d); cbn; [|reflexivity].
  destruct (t <=? now); [apply lookup_delete_ne | apply lookup_insert_ne]; congruence.
Qed.

Lemma acquire_frame now identifier c r c' :
  acquire self now identifier c = (r, c') ->
  forall k, k <> _get_key self identifier -> Redis.db c' !! k = Redis.db c !! k.
Proof.
  unfold acquire. rewrite Hconnected. cbn [negb].
  unfold Eff.bind at 1. rewrite (window_start_quiet self Hwindow).
  unfold Eff.try_except. unfold Eff.bind at 1.
  destruct (Redis.incr now (_get_key self identifier) c) as [r1 c1] eqn:H1.
  pose proof (incr_frame _ _ _ _ _ H1) as F1.
  destruct r1 as [count|e1].
  2:{ destruct e1; intros [= <- <-]; exact F1. }
  unfold Eff.bind at 1.
  destruct ((if count =? 1
             then Eff.bind (Redis.expireat now (_get_key self identifier)
                              (now - now mod window_seconds self + window_seconds self))
                           (fun _ => Eff.ret tt)
             else Eff.ret tt) c1) as [r2 c2] eqn:H2.
  assert (F2 : forall k, k <> _get_key self identifier ->
                 Redis.db c2 !! k = Redis.db c1 !! k).
  { destruct (count =? 1).
    - unfold Eff.bind in H2.
      destruct (Redis.expireat now (_get_key self identifier)
                  (now - now mod window_seconds self + window_seconds self) c1)
        as [r2' c2'] eqn:H2'.
      pose proof (expireat_frame _ _ _ _ _ _ H2') as F.
      destruct r2'; injection H2 as <- <-; exact F.
    - injection H2 as <- <-. reflexivity. }
  destruct r2 as [[]|e2].
  2:{ destruct e2; intros [= <- <-]; intros k Hk; rewrite F2, F1 by exact Hk;
      reflexivity. }
  destruct (max_requests self <? count).
  - unfold Eff.bind.
    destruct (get_limit_info self now identifier c2) as [r3 c3] eqn:H3.
    apply (get_limit_info_used self Hconnected Hwindow) in H3 as [Hdb _].
    destruct r3 as [info|e3].
    + unfold Eff.raise. intros [= <- <-] k Hk. rewrite Hdb, F2, F1 by exact Hk.
      reflexivity.
    + destruct e3; intros [= <- <-] k Hk; rewrite Hdb, F2, F1 by exact Hk;
        reflexivity.
  - unfold Eff.ret. intros [= <- <-] k Hk. rewrite F2, F1 by exact Hk. reflexivity.
Qed.

(** X1. The budgets of two identifiers of one limiter are independent: a
    call of [acquire] for one identifier, whatever its outcome and whatever
    the store does, leaves the entry and the count of every other
    identifier as they were. *)
Theorem acquire_other_identifier_untouched now identifier other fs d :
  other <> identifier ->
  let d' := snd (Redis.run (acquire self now identifier) fs d) in
  d' !! _get_key self other = d !! _get_key self other
  /\ forall t, Redis.counter t (_get_key self other) d' =
               Redis.counter t (_get_key self other) d.
Proof.
  intros Hne d'.
  assert (H : d' !! _get_key self other = d !! _get_key self other).
  { subst d'. unfold Redis.run.
    destruct (acquire self now identifier {| Redis.db := d; Redis.faults := fs |})
      as [r c'] eqn:Hacq.
    cbn [snd]. apply (acquire_frame _ _ _ _ _ Hacq).
    intros Hk. apply get_key_injective in Hk. contradiction. }
  split; [exact H|]. intros t. unfold Redis.counter, Redis.lookup. rewrite H. reflexivity.
Qed.

Lemma acquire_all_from_fresh identifier t1 ts d :
  Redis.counter t1 (_get_key self identifier) d = 0 ->
  Forall (fun t => window_end self t = window_end self t1) ts ->
  snd (acquire_all self identifier (t1 :: ts) d) =
  <[_get_key self identifier :=
      {| Redis.value := 1 + Z.of_nat (length ts);
         Redis.expire_at := Some (window_end self t1) |}]> d.
Proof.
  intros Hfresh Hts. cbn [acquire_all].
  rewrite (acquire_run self Hconnected Hwindow), Hfresh.
  change (0 + 1 =? 1) with true. cbv iota.
  rewrite (acquire_all_in_window self Hconnected Hwindow identifier
             (window_end self t1) ts 1);
    [| lia | exact Hts | apply lookup_insert_eq ].
  cbn [snd]. apply insert_insert_eq.
Qed.

(** X2. After [n] calls of [acquire] in one window that started with no
    live count, [get_limit_info], asked within that window, reports
    [max_requests - n] remaining requests, or 0 when more calls were made
    than allowed, and as reset time the end of the window, which is the
    time at which the key expires; the reset time is later than the time of
    the question by at most the window length. *)
Theorem get_limit_info_after_acquires identifier t1 ts d now :
  Redis.counter t1 (_get_key self identifier) d = 0 ->
  Forall (fun t => window_end self t = window_end self t1) ts ->
  window_end self now = window_end self t1 ->
  let d' := snd (acquire_all self identifier (t1 :: ts) d) in
  Redis.run (get_limit_info self now identifier) [] d' =
    (Ok {| remaining := Z.max 0 (max_requests self - Z.of_nat (length (t1 :: ts)));
           reset_at := window_end self t1;
           total := max_requests self |}, d')
  /\ (Redis.lookup now (_get_key self identifier) d' ≫= Redis.expire_at)
       = Some (window_end self t1)
  /\ now < window_end self t1 <= now + window_seconds self.
Proof.
  intros Hfresh Hts Hnow d'.
  assert (Hd' : d' = <[_get_key self identifier :=
                         {| Redis.value := 1 + Z.of_nat (length ts);
                            Redis.expire_at := Some (window_end self t1) |}]> d)
    by (apply acquire_all_from_fresh; assumption).
  pose proof (window_end_after self Hwindow now) as Hafter.
  pose proof (window_end_le self Hwindow now) as Hle.
  rewrite Hnow in Hafter, Hle.
  assert (Hlook : Redis.lookup now (_get_key self identifier) d' =
                  Some {| Redis.value := 1 + Z.of_nat (length ts);
                          Redis.expire_at := Some (window_end self t1) |}).
  { rewrite Hd'. apply lookup_insert_live. unfold Redis.live; cbn.
    destruct (Z.ltb_spec now (window_end self t1)); [reflexivity|lia]. }
  split; [|split; [rewrite Hlook; reflexivity | lia]].
  unfold Redis.run. fold (Redis.quiet d').
  rewrite (get_limit_info_quiet self Hconnected Hwindow).
  cbn [Redis.db Redis.quiet]. unfold info_at. rewrite Hlook, Hnow.
  cbn [Redis.value length]. do 3 f_equal. lia.
Qed.

(** A key that holds a count and no expiry: every call counts, none resets
    it. *)
Lemma acquire_all_no_expiry identifier ts : forall n d,
  1 <= n ->
  d !! _get_key self identifier =
    Some {| Redis.value := n; Redis.expire_at := None |} ->
  acquire_all self identifier ts d =
  (imap (fun i t => if max_requests self <? n + 1 + Z.of_nat i
                    then Raise (exceeded self t) else Ok tt) ts,
   <[_get_key self identifier :=
       {| Redis.value := n + Z.of_nat (length ts); Redis.expire_at := None |}]> d).
Proof.
  induction ts as [|t ts IH]; intros n d Hn Hd.
  - cbn. rewrite Z.add_0_r. symmetry. rewrite insert_id; [reflexivity|exact Hd].
  - cbn [acquire_all]. rewrite (acquire_run self Hconnected Hwindow).
    assert (Hlook : Redis.lookup t (_get_key self identifier) d =
                    Some {| Redis.value := n; Redis.expire_at := None |}).
    { unfold Redis.lookup, Redis.live. rewrite Hd. reflexivity. }
    assert (Hcnt : Redis.counter t (_get_key self identifier) d = n).
    { unfold Redis.counter. rewrite Hlook. reflexivity. }
    rewrite Hcnt, Hlook. cbn [mbind option_bind Redis.expire_at].
    destruct (Z.eqb_spec (n + 1) 1) as [E1|_]; [lia|].
    rewrite (IH (n + 1)); [| lia | apply lookup_insert_eq].
    rewrite insert_insert_eq. cbn [imap length].
    f_equal.
    + f_equal.
      * rewrite Z.add_0_r. reflexivity.
      * apply imap_ext. intros i x _. cbn.
        replace (n + 1 + 1 + Z.of_nat i) with (n + 1 + Z.of_nat (S i)) by lia.
        reflexivity.
    + replace (n + Z.of_nat (S (length ts))) with (n + 1 + Z.of_nat (length ts)) by lia.
      reflexivity.
Qed.

(** X3. When the store takes the first increment of a key and then fails
    on the command that sets its expiry, [acquire] fails and the key is
    left with count 1 and no expiry. From then on the window never starts
    again: at whatever times the later calls are made, each adds to the
    same count, so that only [max_requests - 1] more calls ever succeed
    and every call after them fails. *)
Theorem lost_expiry_never_resets identifier now d ts :
  Redis.lookup now (_get_key self identifier) d = None ->
  let key := _get_key self identifier in
  let out := Redis.run (acquire self now identifier) [false; true] d in
  let all := acquire_all self identifier ts (snd out) in
  is_ok (fst out) = false
  /\ snd out !! key = Some {| Redis.value := 1; Redis.expire_at := None |}
  /\ (forall i t, ts !! i = Some t ->
        exists r, fst all !! i = Some r
                  /\ is_ok r = (Z.of_nat i + 1 <? max_requests self))
  /\ snd all !! key =
       Some {| Redis.value := 1 + Z.of_nat (length ts); Redis.expire_at := None |}.
Proof.
  intros Hnone key out all.
  assert (Hout : out = (Raise check_failed,
                        <[key := {| Redis.value := 1; Redis.expire_at := None |}]> d)).
  { subst out key. unfold Redis.run, acquire. rewrite Hconnected. cbn [negb].
    unfold Eff.bind at 1. rewrite (window_start_quiet self Hwindow).
    unfold Eff.try_except, Eff.bind, Redis.incr, Redis.expireat, Redis.command.
    cbn [Redis.faults Redis.db]. rewrite Hnone. cbn. reflexivity. }
  assert (Hall : all =
            (imap (fun i t => if max_requests self <? 1 + 1 + Z.of_nat i
                              then Raise (exceeded self t) else Ok tt) ts,
             <[key := {| Redis.value := 1 + Z.of_nat (length ts);
                         Redis.expire_at := None |}]> d)).
  { subst all. rewrite Hout. cbn [snd]. subst key.
    rewrite (acquire_all_no_expiry identifier ts 1); [| lia | apply lookup_insert_eq].
    rewrite insert_insert_eq. reflexivity. }
  rewrite Hout, Hall. cbn [fst snd].
  split; [reflexivity|]. split; [apply lookup_insert_eq|].
  split; [|apply lookup_insert_eq].
  intros i t Hi. eexists. split; [rewrite list_lookup_imap, Hi; reflexivity|].
  destruct (Z.ltb_spec (max_requests self) (1 + 1 + Z.of_nat i)),
           (Z.ltb_spec (Z.of_nat i + 1) (max_requests self));
    first [reflexivity | lia].
Qed.

End RateLimiterMore.

(** ** The cleaning of texts *)
Section TextFacts.
Import Embeddings Text.

Lemma append_cons c a b : (String c a ++ b)%string = String c (a ++ b)%string.
Proof. reflexivity. Qed.

Lemma append_empty b : ("" ++ b)%string = b.
Proof. reflexivity. Qed.

Lemma lstrip_split s :
  exists l, s = (l ++ lstrip s)%string /\ all_space l = true.
Proof.
  induction s as [|c r IH]; [exists ""%string; split; reflexivity|].
  cbn [lstrip]. destruct (is_space c) eqn:Hc.
  - destruct IH as (l & Hl & Hs). exists (String c l). split.
    + rewrite append_cons. f_equal. exact Hl.
    + cbn. rewrite Hc, Hs. reflexivity.
  - exists ""%string. split; reflexivity.
Qed.

Lemma lstrip_start s : starts_with_space (lstrip s) = false.
Proof.
  induction s as [|c r IH]; [reflexivity|].
  cbn [lstrip]. destruct (is_space c) eqn:Hc; [exact IH|]. cbn. exact Hc.
Qed.

Lemma rstrip_split s :
  exists r, s = (rstrip s ++ r)%string /\ all_space r = true.
Proof.
  induction s as [|c s IH]; [exists ""%string; split; reflexivity|].
  destruct IH as (r & Hr & Hs). cbn [rstrip].
  destruct (rstrip s) as [|c' s'] eqn:Hrs.
  - rewrite append_empty in Hr. subst s. destruct (is_space c) eqn:Hc.
    + exists (String c r). split; [reflexivity|]. cbn. rewrite Hc, Hs. reflexivity.
    + exists r. split; [reflexivity|exact Hs].
  - exists r. split; [|exact Hs]. rewrite append_cons. f_equal. exact Hr.
Qed.

Lemma rstrip_end s : ends_with_space (rstrip s) = false.
Proof.
  induction s as [|c s IH]; [reflexivity|].
  cbn [rstrip]. destruct (rstrip s) as [|c' s'] eqn:Hrs.
  - destruct (is_space c) eqn:Hc; [reflexivity|]. cbn. exact Hc.
  - exact IH.
Qed.

Lemma rstrip_start s :
  starts_with_space s = false -> starts_with_space (rstrip s) = false.
Proof.
  destruct s as [|c s]; [reflexivity|]. cbn [starts_with_space rstrip]. intros Hc.
  destruct (rstrip s); [rewrite Hc|]; cbn; exact Hc.
Qed.

Lemma lstrip_id s : starts_with_space s = false -> lstrip s = s.
Proof. destruct s as [|c s]; [reflexivity|]. cbn. intros ->. reflexivity. Qed.

Lemma rstrip_id s : ends_with_space s = false -> rstrip s = s.
Proof.
  induction s as [|c s IH]; [reflexivity|].
  destruct s as [|c' s'].
  - cbn. intros ->. reflexivity.
  - intros H. change (ends_with_space (String c' s') = false) in H.
    cbn [rstrip]. cbn [rstrip] in IH. rewrite (IH H). reflexivity.
Qed.

Lemma has_newline_app a b :
  has_newline (a ++ b)%string = has_newline a || has_newline b.
Proof.
  induction a as [|c a IH]; [reflexivity|].
  rewrite append_cons. cbn [has_newline]. rewrite IH, orb_assoc. reflexivity.
Qed.

Lemma replace_newlines_clean s : has_newline (replace_newlines s) = false.
Proof.
  induction s as [|c s IH]; [reflexivity|]. cbn. rewrite IH, orb_false_r.
  destruct (Ascii.eqb c "010"%char) eqn:Hc; [reflexivity|exact Hc].
Qed.

Lemma replace_newlines_id s : has_newline s = false -> replace_newlines s = s.
Proof.
  induction s as [|c s IH]; [reflexivity|]. cbn. intros H.
  apply orb_false_elim in H as [Hc Hs]. rewrite Hc, (IH Hs). reflexivity.
Qed.

Lemma replace_newlines_length s :
  String.length (replace_newlines s) = String.length s.
Proof. induction s as [|c s IH]; [reflexivity|]. cbn. rewrite IH. reflexivity. Qed.

Lemma strip_split s :
  exists l r, s = (l ++ strip s ++ r)%string /\ all_space l = true /\ all_space r = true.
Proof.
  destruct (lstrip_split s) as (l & Hl & Hls).
  destruct (rstrip_split (lstrip s)) as (r & Hr & Hrs).
  exists l, r. split; [|split; assumption].
  unfold strip. rewrite <- Hr. exact Hl.
Qed.

Variable encode : string -> list Z.

Lemma validate_text_accepts text cleaned :
  _validate_text encode text = Ok cleaned ->
  cleaned = strip (replace_newlines text)
  /\ Z.of_nat (length (encode cleaned)) <= max_text_length.
Proof.
  unfold _validate_text. destruct (String.eqb text ""); [discriminate|].
  destruct (Z.ltb_spec max_text_length
              (Z.of_nat (length (encode (strip (replace_newlines text))))))
    as [|Hle]; [discriminate|].
  intros [= <-]. split; [reflexivity|exact Hle].
Qed.

Lemma strip_clean text :
  has_newline (strip (replace_newlines text)) = false
  /\ starts_with_space (strip (replace_newlines text)) = false
  /\ ends_with_space (strip (replace_newlines text)) = false.
Proof.
  destruct (strip_split (replace_newlines text)) as (l & r & Hs & Hl & Hr).
  split.
  { pose proof (replace_newlines_clean text) as Hn. rewrite Hs in Hn.
    rewrite !has_newline_app in Hn.
    apply orb_false_elim in Hn as [_ Hn]. apply orb_false_elim in Hn as [Hn _].
    exact Hn. }
  split; [apply rstrip_start, lstrip_start|apply rstrip_end].
Qed.

(** X4. A text that [_validate_text] accepts is returned cleaned and
    whole: it is the given text with its newlines turned into spaces and
    with nothing but white space taken off at both ends; it holds no
    newline, neither begins nor ends with white space, and has at most 8191
    tokens. *)
Theorem validate_text_output_clean text cleaned :
  _validate_text encode text = Ok cleaned ->
  (exists l r, replace_newlines text = (l ++ cleaned ++ r)%string
               /\ all_space l = true /\ all_space r = true)
  /\ String.length (replace_newlines text) = String.length text
  /\ has_newline cleaned = false
  /\ starts_with_space cleaned = false
  /\ ends_with_space cleaned = false
  /\ Z.of_nat (length (encode cleaned)) <= max_text_length.
Proof.
  intros H. apply validate_text_accepts in H as [-> Hle].
  destruct (strip_split (replace_newlines text)) as (l & r & Hs & Hl & Hr).
  destruct (strip_clean text) as (Hn & Hstart & Hend).
  split; [exists l, r; auto|].
  split; [apply replace_newlines_length|]. auto.
Qed.

(** X5. Validation is idempotent on what it accepts: a text returned by
    [_validate_text], when it is not empty, is accepted again and returned
    unchanged. *)
Theorem validate_text_idempotent text cleaned :
  _validate_text encode text = Ok cleaned ->
  cleaned <> ""%string ->
  _validate_text encode cleaned = Ok cleaned.
Proof.
  intros H Hne.
  apply validate_text_accepts in H as [Hc Hle].
  destruct (strip_clean text) as (Hn & Hs & He). rewrite <- Hc in Hn, Hs, He.
  unfold _validate_text.
  destruct (String.eqb_spec cleaned ""); [contradiction|].
  unfold strip. rewrite (replace_newlines_id _ Hn), (lstrip_id _ Hs), (rstrip_id _ He).
  destruct (Z.ltb_spec max_text_length (Z.of_nat (length (encode cleaned))));
    [lia|reflexivity].
Qed.

End TextFacts.

Lemma validate_text_output_clean_witness :
  (exists l r, Embeddings.replace_newlines (" tax" ++ String "010"%char "audit ")%string
                 = (l ++ "tax audit" ++ r)%string
               /\ Text.all_space l = true /\ Text.all_space r = true)
  /\ String.length (Embeddings.replace_newlines (" tax" ++ String "010"%char "audit ")%string)
     = String.length (" tax" ++ String "010"%char "audit ")%string
  /\ Text.has_newline "tax audit" = false
  /\ Text.starts_with_space "tax audit" = false
  /\ Text.ends_with_space "tax audit" = false
  /\ Z.of_nat (length (Sample.char_tokens "tax audit")) <= Embeddings.max_text_length.
Proof.
  apply (validate_text_output_clean Sample.char_tokens
           (" tax" ++ String "010"%char "audit ")%string "tax audit").
  reflexivity.
Defined.

Lemma validate_text_idempotent_witness :
  Embeddings._validate_text Sample.char_tokens "tax audit" = Ok "tax audit"%string.
Proof.
  apply (validate_text_idempotent Sample.char_tokens
           (" tax" ++ String "010"%char "audit ")%string "tax audit").
  - reflexivity.
  - discriminate.
Defined.

(** ** The embedding client behind its limiter *)
Section ClientFacts.
Import RateLimit Calls.

Variable self : RateLimiter.
Hypothesis Hconnected : connected self = true.
Hypothesis Hwindow : 0 < window_seconds self.

Variable encode : string -> list Z.
Variable acreate : string -> result (list (list Q)).

(** The three outcomes of [acquire]. *)
Lemma acquire_outcomes now identifier c r c' :
  acquire self now identifier c = (r, c') ->
  r = Ok tt \/ r = Raise check_failed \/ r = Raise (exceeded self now).
Proof.
  unfold acquire. rewrite Hconnected. cbn [negb].
  unfold Eff.bind at 1. rewrite (window_start_quiet self Hwindow).
  unfold Eff.try_except. unfold Eff.bind at 1.
  destruct (Redis.incr now (_get_key self identifier) c) as [r1 c1] eqn:H1.
  apply command_used in H1 as (_ & _ & [(_ & -> & _)|(_ & -> & _)]).
  { intros [= <- <-]. right; left; reflexivity. }
  set (count := fst _). unfold Eff.bind at 1.
  destruct ((if count =? 1
             then Eff.bind (Redis.expireat now (_get_key self identifier)
                              (now - now mod window_seconds self + window_seconds self))
                           (fun _ => Eff.ret tt)
             else Eff.ret tt) c1) as [r2 c2] eqn:H2.
  assert (Hr2 : r2 = Ok tt \/ r2 = Raise RedisError).
  { destruct (count =? 1).
    - unfold Eff.bind in H2.
      destruct (Redis.expireat now (_get_key self identifier)
                  (now - now mod window_seconds self + window_seconds self) c1)
        as [r2' c2'] eqn:H2'.
      apply command_used in H2' as (_ & _ & [(_ & -> & _)|(_ & -> & _)]);
        injection H2 as <- <-; auto.
    - injection H2 as <- <-. auto. }
  destruct Hr2 as [-> | ->].
  2:{ intros [= <- <-]. right; left; reflexivity. }
  destruct (max_requests self <? count).
  - unfold Eff.bind.
    destruct (get_limit_info self now identifier c2) as [r3 c3] eqn:H3.
    apply (get_limit_info_used self Hconnected Hwindow) in H3
      as (_ & _ & _ & [(_ & ->)|(_ & ->)]).
    + intros [= <- <-]. right; left; reflexivity.
    + unfold Eff.raise. intros [= <- <-]. right; right. reflexivity.
  - unfold Eff.ret. intros [= <- <-]. left; reflexivity.
Qed.

(** The body fails in one way only: whatever stops it, a text that does
    not pass validation, an error of the provider or an answer without
    data, its second handler takes the exception and raises an
    [OpenAIError], which cannot be constructed. *)
Lemma generate_embedding_body_failure text e :
  Embeddings.generate_embedding_body encode acreate text = Raise e ->
  e = AttributeError "OpenAIError" "context".
Proof.
  unfold Embeddings.generate_embedding_body.
  destruct (Embeddings._validate_text encode text) as [t|e0].
  - destruct (acreate t) as [[|v rest]|e1].
    + intros [= <-]. reflexivity.
    + discriminate.
    + intros [= <-]. reflexivity.
  - intros [= <-]. reflexivity.
Qed.

(** X6. Whatever the store and the provider do, a call of the decorated
    [generate_embedding] that fails raises the [AttributeError] of an
    exception that could not be constructed: no [RateLimitError],
    [ValidationError] or [OpenAIError], and no error of the store or of
    the provider, ever reaches the caller. A refusal by the limiter and a
    failure of the store are one error, and so are a text that fails
    validation and a failure of the provider. *)
Theorem generate_embedding_error_classes now text fs d e :
  fst (Redis.run (Embeddings.generate_embedding encode acreate self now text) fs d)
    = Raise e ->
  e = AttributeError "RateLimitError" "context"
  \/ e = AttributeError "OpenAIError" "context".
Proof.
  unfold Redis.run, Embeddings.generate_embedding.
  destruct (acquire self now "generate_embedding" {| Redis.db := d; Redis.faults := fs |})
    as [r c'] eqn:Hacq.
  destruct (acquire_outcomes _ _ _ _ _ Hacq) as [-> | [-> | ->]].
  - rewrite (rate_limited_passed self _ _ _ _ _ Hacq). cbn [fst].
    intros H. apply generate_embedding_body_failure in H. auto.
  - rewrite (rate_limited_blocked self _ _ _ _ _ _ Hacq). cbn [fst].
    intros [= <-]. left; reflexivity.
  - rewrite (rate_limited_blocked self _ _ _ _ _ _ Hacq). cbn [fst].
    intros [= <-]. left; reflexivity.
Qed.

Lemma generate_embedding_quiet now text d :
  let key := _get_key self "generate_embedding" in
  let count := Redis.counter now key d + 1 in
  Embeddings.generate_embedding encode acreate self now text (Redis.quiet d) =
  (if max_requests self <? count then Raise (exceeded self now)
   else Embeddings.generate_embedding_body encode acreate text,
   Redis.quiet (<[key := {| Redis.value := count;
                            Redis.expire_at :=
                              if count =? 1 then Some (window_end self now)
                              else Redis.lookup now key d ≫= Redis.expire_at |}]> d)).
Proof.
  intros key count.
  pose proof (acquire_quiet self Hconnected Hwindow now "generate_embedding" d) as Hacq.
  cbv zeta in Hacq. fold key in Hacq. fold count in Hacq.
  unfold Embeddings.generate_embedding.
  destruct (max_requests self <? count).
  - rewrite (rate_limited_blocked self _ _ _ _ _ _ Hacq). reflexivity.
  - rewrite (rate_limited_passed self _ _ _ _ _ Hacq). reflexivity.
Qed.

(** C4 (as amended). [generate_embedding] makes no check of the dimension:
    when validation passes and the provider answers, the body returns the
    first vector of the answer as it is, whatever its length, and so does
    the decorated call that the limiter lets through. *)
Theorem generate_embedding_no_dimension_check now text text' v rest d :
  Embeddings._validate_text encode text = Ok text' ->
  acreate text' = Ok (v :: rest) ->
  Redis.counter now (_get_key self "generate_embedding") d + 1 <= max_requests self ->
  Embeddings.generate_embedding_body encode acreate text = Ok v
  /\ fst (Redis.run (Embeddings.generate_embedding encode acreate self now text) [] d)
     = Ok v.
Proof.
  intros Hval Hreply Hbudget.
  assert (Hbody : Embeddings.generate_embedding_body encode acreate text = Ok v).
  { unfold Embeddings.generate_embedding_body. rewrite Hval, Hreply. reflexivity. }
  split; [exact Hbody|].
  unfold Redis.run. fold (Redis.quiet d). rewrite generate_embedding_quiet.
  destruct (Z.ltb_spec (max_requests self)
              (Redis.counter now (_get_key self "generate_embedding") d + 1)); [lia|].
  cbn [fst]. exact Hbody.
Qed.

End ClientFacts.

Lemma generate_embedding_no_dimension_check_witness :
  Embeddings.generate_embedding_body Sample.char_tokens Sample.acreate3 "test"
    = Ok Sample.short_vector
  /\ fst (Redis.run (Embeddings.generate_embedding Sample.char_tokens Sample.acreate3
                       (RateLimit.OpenAIRateLimiter 60 true) 90 "test") [] ∅)
     = Ok Sample.short_vector.
Proof.
  apply (generate_embedding_no_dimension_check (RateLimit.OpenAIRateLimiter 60 true)
           eq_refl ltac:(cbn; lia) Sample.char_tokens Sample.acreate3
           90 "test" "test" Sample.short_vector [] ∅).
  - reflexivity.
  - reflexivity.
  - vm_compute. discriminate.
Defined.

(** ** The life cycle of the embedding service *)
Section ServiceFacts.
Import RateLimit Calls Services.

Variable encode : string -> list Z.
Variable acreate : string -> result (list (list Q)).

Lemma on_store_keeps {A} (m : RateLimiter -> Eff.M Redis.conn A) w :
  service (snd (on_store m w)) = service w
  /\ limiter (snd (on_store m w)) = limiter w.
Proof.
  unfold on_store. destruct (m (limiter w) (store w)) as [r c]. split; reflexivity.
Qed.

Lemma init_resources_keeps now w :
  service (snd (_init_resources encode acreate now w)) = service w
  /\ limiter (snd (_init_resources encode acreate now w)) = limiter w.
Proof.
  unfold _init_resources, Eff.try_except, Eff.bind, Services.generate_embedding.
  pose proof (on_store_keeps
                (fun self => Embeddings.generate_embedding encode acreate self now "test") w)
    as [Hs Hl].
  destruct (on_store _ w) as [[v|e] w']; cbn [snd] in *; split; assumption.
Qed.

(** X7. [EmbeddingService.init] never sets [initialized]: after it, whether
    it succeeded or raised, the limiter is connected and the service object
    is as before, so that [health_check] on a service that was built and
    initialised this way answers [False] at once, without running
    [_check_health] and without a call to the store or the provider. *)
Theorem init_leaves_service_uninitialised now later w :
  initialized (service w) = false ->
  let w1 := snd (init encode acreate now w) in
  connected (limiter w1) = true
  /\ service w1 = service w
  /\ health_check (_check_health encode acreate later) later w1 = (Ok false, w1).
Proof.
  intros Hinit w1.
  assert (H : connected (limiter w1) = true /\ service w1 = service w).
  { subst w1. unfold init, Eff.bind, RateLimiter_init.
    set (w0 := {| service := service w;
                  limiter := {| key_prefix := key_prefix (limiter w);
                                max_requests := max_requests (limiter w);
                                window_seconds := window_seconds (limiter w);
                                connected := true |};
                  store := store w |}).
    pose proof (on_store_keeps (fun _ => ping) w0) as [Hs Hl].
    destruct (on_store (fun _ => ping) w0) as [[[]|e] w'];
      cbn [snd] in Hs, Hl |- *.
    - destruct (init_resources_keeps now w') as [Hs' Hl'].
      rewrite Hs', Hl', Hs, Hl. split; reflexivity.
    - rewrite Hs, Hl. split; reflexivity. }
  destruct H as [Hc Hs]. split; [exact Hc|]. split; [exact Hs|].
  unfold health_check. rewrite Hs, Hinit. reflexivity.
Qed.

(** X8. [_check_health] never raises, and on a connected limiter whose
    store answers every check is a request against the budget: the
    counter of [generate_embedding] goes up by one, and the check answers
    [True] exactly when the budget was not used up and the provider gave a
    vector for the text "health check". *)
Theorem check_health_uses_budget now w d :
  connected (limiter w) = true ->
  0 < window_seconds (limiter w) ->
  store w = Redis.quiet d ->
  let key := _get_key (limiter w) "generate_embedding" in
  let out := _check_health encode acreate now w in
  fst out = Ok (negb (max_requests (limiter w) <? Redis.counter now key d + 1)
                && is_ok (Embeddings.generate_embedding_body encode acreate "health check"))
  /\ Redis.counter now key (Redis.db (store (snd out))) = Redis.counter now key d + 1
  /\ (forall w0, exists b w', _check_health encode acreate now w0 = (Ok b, w')).
Proof.
  intros Hc Hw Hstore key out.
  split; [|split].
  - subst out. unfold _check_health, Eff.try_except, Eff.bind, Services.generate_embedding,
      on_store. rewrite Hstore.
    rewrite (generate_embedding_quiet (limiter w) Hc Hw). fold key.
    destruct (max_requests (limiter w) <? Redis.counter now key d + 1); [reflexivity|].
    destruct (Embeddings.generate_embedding_body encode acreate "health check");
      reflexivity.
  - subst out. unfold _check_health, Eff.try_except, Eff.bind, Services.generate_embedding,
      on_store. rewrite Hstore.
    rewrite (generate_embedding_quiet (limiter w) Hc Hw). fold key.
    set (e1 := {| Redis.value := _; Redis.expire_at := _ |}).
    assert (Hlive : Redis.live now e1 = true).
    { unfold Redis.live, e1; cbn.
      destruct (Redis.counter now key d + 1 =? 1).
      - pose proof (window_end_after (limiter w) Hw now).
        destruct (Z.ltb_spec now (window_end (limiter w) now)); [reflexivity|lia].
      - destruct (Redis.lookup now key d) as [e|] eqn:Hl; [|reflexivity]. cbn.
        apply lookup_live in Hl. exact Hl. }
    assert (Hcnt : Redis.counter now key (<[key := e1]> d) = Redis.counter now key d + 1)
      by (rewrite counter_insert by exact Hlive; reflexivity).
    destruct (max_requests (limiter w) <? Redis.counter now key d + 1); [exact Hcnt|].
    destruct (Embeddings.generate_embedding_body encode acreate "health check");
      exact Hcnt.
  - intros w0. unfold _check_health, Eff.try_except, Eff.bind.
    destruct (Services.generate_embedding encode acreate now "health check" w0)
      as [[v|e] w']; eexists _, _; reflexivity.
Qed.

End ServiceFacts.

(** ** The job repositories *)
Section MatchRepositoryFacts.
Import Models Repositories.




End MatchRepositoryFacts.

Section JobRepositoryFacts.
Import Models Repositories.

Variable ilike : string -> string -> bool.
Variable scan : Z -> Z -> list Job -> list Job.
Variable fails fails_later : nat -> bool.

(** Whatever the order in which the database returns rows, it returns the
    rows that the statement selects. *)
Hypothesis scan_permutes :
  forall skip limit rows, Permutation (scan skip limit rows) rows.

(** X13. [search_jobs], when the database answers its two statements:
    the total counts all the jobs of the table that pass the filters, so
    that it is the same for every page; the page holds [limit] jobs, or
    what is left of the total after [skip] when that is less; and every
    job of the page is a job of the table that passes the filters. *)
Theorem search_jobs_pages title location seniority service skip limit d page total :
  search_jobs ilike scan fails title location seniority service skip limit d
    = Ok (page, total) ->
  total = Z.of_nat (length (List.filter
                              (matches_filters ilike title location seniority service)
                              (jobs d)))
  /\ (forall skip' limit' page' total',
        search_jobs ilike scan fails title location seniority service skip' limit' d
          = Ok (page', total') -> total' = total)
  /\ Z.of_nat (length page) = Z.min limit (Z.max 0 (total - skip))
  /\ (forall j, In j page ->
        In j (jobs d)
        /\ matches_filters ilike title location seniority service j = true).
Proof.
  set (filtered := List.filter (matches_filters ilike title location seniority service)
                               (jobs d)).
  assert (Htotal : forall skip' limit' page' total',
            search_jobs ilike scan fails title location seniority service skip' limit' d
              = Ok (page', total') ->
            total' = Z.of_nat (length filtered)
            /\ 0 <= skip' /\ 0 <= limit'
            /\ page' = firstn (Z.to_nat limit')
                         (skipn (Z.to_nat skip') (scan skip' limit' filtered))).
  { intros skip' limit' page' total'. unfold search_jobs. fold filtered.
    destruct (fails 0%nat); [discriminate|].
    destruct (fails 1%nat); [discriminate|].
    destruct (Z.ltb_spec skip' 0); [discriminate|].
    destruct (Z.ltb_spec limit' 0); [discriminate|].
    intros [= <- <-]. auto. }
  intros H. destruct (Htotal _ _ _ _ H) as (-> & Hs & Hl & ->).
  split; [reflexivity|]. split.
  { intros skip' limit' page' total' H'. apply Htotal in H' as [-> _]. reflexivity. }
  split.
  { rewrite length_firstn, length_skipn.
    rewrite (Permutation_length (scan_permutes skip limit filtered)). lia. }
  intros j Hj.
  assert (Hin : In j filtered).
  { apply (Permutation_in _ (scan_permutes skip limit filtered)).
    rewrite <- (firstn_skipn (Z.to_nat skip) (scan skip limit filtered)).
    apply in_or_app. right.
    rewrite <- (firstn_skipn (Z.to_nat limit)
                  (skipn (Z.to_nat skip) (scan skip limit filtered))).
    apply in_or_app. left. exact Hj. }
  apply filter_In in Hin. exact Hin.
Qed.

(** X14. [update_embedding] changes the table only when it returns: a call
    that raises, in the read of the job or in the commit, leaves the table
    as it was. A call that returns has done nothing when no job has the
    id; otherwise every job of that id holds the vector and every other
    job is as it was, after which [get_jobs_without_embeddings], when the
    database answers it, lists no job of that id, and lists only jobs of
    the table without vector, at most [limit] of them. *)
Theorem update_embedding_then_without job_id e d :
  let out := update_embedding fails job_id e d in
  (forall x, fst out = Raise x -> snd out = d)
  /\ (fst out = Ok tt ->
      ((forall j, In j (jobs d) -> id j <> job_id) -> snd out = d)
      /\ (forall j, In j (jobs d) -> id j <> job_id -> In j (jobs (snd out)))
      /\ (forall j, In j (jobs (snd out)) -> id j = job_id -> embedding j = Some e)
      /\ (forall j, In j (jobs d) -> id j = job_id ->
            In (with_embedding e j) (jobs (snd out)))
      /\ (forall limit js,
            get_jobs_without_embeddings scan fails_later limit (snd out) = Ok js ->
            Z.of_nat (length js) <= limit
            /\ forall j, In j js ->
                 id j <> job_id /\ embedding j = None /\ In j (jobs d))).
Proof.
  intros out. subst out. unfold update_embedding, get.
  destruct (fails 0%nat); cbn [fst snd]; [split; [reflexivity|discriminate]|].
  assert (Hwithout : forall d' limit js,
            get_jobs_without_embeddings scan fails_later limit d' = Ok js ->
            Z.of_nat (length js) <= limit
            /\ forall j, In j js -> embedding j = None /\ In j (jobs d')).
  { intros d' limit js. unfold get_jobs_without_embeddings.
    destruct (fails_later 0%nat); [discriminate|].
    destruct (Z.ltb_spec limit 0); [discriminate|]. intros [= <-]. split.
    { rewrite length_firstn. lia. }
    intros j Hj.
    match type of Hj with
    | In _ (firstn _ (scan _ _ ?rows)) =>
        assert (Hin : In j rows)
    end.
    { apply (Permutation_in _ (scan_permutes 0 limit _)).
      rewrite <- (firstn_skipn (Z.to_nat limit) _). apply in_or_app. left. exact Hj. }
    apply filter_In in Hin as [Hin Hnone]. split; [|exact Hin].
    destruct (embedding j); [discriminate|reflexivity]. }
  destruct (List.find (fun j => id j =? job_id) (jobs d)) as [job|] eqn:Hget; cbn [fst snd].
  - destruct (fails 1%nat); cbn [fst snd]; [split; [reflexivity|discriminate]|].
    assert (Hrow : forall j, In j (map (fun j => if id j =? job_id
                                                  then with_embedding e j else j) (jobs d)) ->
                     (id j = job_id /\ embedding j = Some e)
                     \/ (id j <> job_id /\ In j (jobs d))).
    { intros j Hj. apply in_map_iff in Hj as (j0 & Hj0 & Hin).
      destruct (Z.eqb_spec (id j0) job_id) as [Heq|Hne]; subst j.
      - left. split; [exact Heq|reflexivity].
      - right. split; [exact Hne|exact Hin]. }
    split; [discriminate|]. intros _. split.
    { intros Hnone. exfalso. apply find_some in Hget as [Hin Hid].
      apply Z.eqb_eq in Hid. exact (Hnone job Hin Hid). }
    split.
    { intros j Hj Hne. cbn [jobs set_jobs]. apply in_map_iff. exists j.
      destruct (Z.eqb_spec (id j) job_id); [contradiction|]. split; [reflexivity|exact Hj]. }
    split.
    { intros j Hj Hid. apply Hrow in Hj as [[_ He]|[Hne _]]; [exact He|contradiction]. }
    split.
    { intros j Hj Hid. cbn [jobs set_jobs]. apply in_map_iff. exists j.
      destruct (Z.eqb_spec (id j) job_id); [|contradiction]. split; [reflexivity|exact Hj]. }
    intros limit js Hjs. apply Hwithout in Hjs as [Hlen Hjs]. split; [exact Hlen|].
    intros j Hj. apply Hjs in Hj as [Hnone Hin]. cbn [jobs set_jobs] in Hin.
    apply Hrow in Hin as [[_ He]|[Hne Hin]].
    + rewrite He in Hnone. discriminate.
    + auto.
  - assert (Hnone : forall j, In j (jobs d) -> id j <> job_id).
    { intros j Hj Hid. apply (find_none _ _ Hget) in Hj. apply Z.eqb_neq in Hj.
      contradiction. }
    split; [discriminate|]. intros _. split; [reflexivity|]. split; [auto|]. split.
    { intros j Hj Hid. exfalso. exact (Hnone j Hj Hid). }
    split.
    { intros j Hj Hid. exfalso. exact (Hnone j Hj Hid). }
    intros limit js Hjs. apply Hwithout in Hjs as [Hlen Hjs]. split; [exact Hlen|].
    intros j Hj. apply Hjs in Hj as [He Hin]. split; [apply Hnone, Hin|]. auto.
Qed.

End JobRepositoryFacts.

(** ** Instances *)

Lemma acquire_other_identifier_untouched_witness :
  let self := RateLimit.OpenAIRateLimiter 2 true in
  let d' := snd (Redis.run (RateLimit.acquire self 90 "f") [] ∅) in
  d' !! RateLimit._get_key self "g" = (∅ : gmap string Redis.entry) !! RateLimit._get_key self "g"
  /\ forall t, Redis.counter t (RateLimit._get_key self "g") d' =
               Redis.counter t (RateLimit._get_key self "g") ∅.
Proof.
  apply (acquire_other_identifier_untouched (RateLimit.OpenAIRateLimiter 2 true)
           eq_refl ltac:(cbn; lia) 90 "f" "g" [] ∅).
  discriminate.
Defined.

Lemma get_limit_info_after_acquires_witness :
  let self := RateLimit.OpenAIRateLimiter 2 true in
  let d' := snd (Calls.acquire_all self "f" [90; 100] ∅) in
  Redis.run (RateLimit.get_limit_info self 110 "f") [] d' =
    (Ok {| RateLimit.remaining :=
             Z.max 0 (RateLimit.max_requests self - Z.of_nat (length [90; 100]));
           RateLimit.reset_at := Calls.window_end self 90;
           RateLimit.total := RateLimit.max_requests self |}, d')
  /\ (Redis.lookup 110 (RateLimit._get_key self "f") d' ≫= Redis.expire_at)
       = Some (Calls.window_end self 90)
  /\ 110 < Calls.window_end self 90 <= 110 + RateLimit.window_seconds self.
Proof.
  apply (get_limit_info_after_acquires (RateLimit.OpenAIRateLimiter 2 true)
           eq_refl ltac:(cbn; lia) "f" 90 [100] ∅ 110).
  - reflexivity.
  - repeat constructor.
  - reflexivity.
Defined.

Lemma lost_expiry_never_resets_witness :
  let self := RateLimit.OpenAIRateLimiter 2 true in
  let key := RateLimit._get_key self "f" in
  let out := Redis.run (RateLimit.acquire self 90 "f") [false; true] ∅ in
  let all := Calls.acquire_all self "f" [200; 300] (snd out) in
  is_ok (fst out) = false
  /\ snd out !! key = Some {| Redis.value := 1; Redis.expire_at := None |}
  /\ (forall i t, [200; 300] !! i = Some t ->
        exists r, fst all !! i = Some r
                  /\ is_ok r = (Z.of_nat i + 1 <? RateLimit.max_requests self))
  /\ snd all !! key =
       Some {| Redis.value := 1 + Z.of_nat (length [200; 300]); Redis.expire_at := None |}.
Proof.
  apply (lost_expiry_never_resets (RateLimit.OpenAIRateLimiter 2 true)
           eq_refl ltac:(cbn; lia) "f" 90 ∅ [200; 300]).
  reflexivity.
Defined.

Lemma generate_embedding_error_classes_witness :
  let e := AttributeError "OpenAIError" "context" in
  e = AttributeError "RateLimitError" "context"
  \/ e = AttributeError "OpenAIError" "context".
Proof.
  apply (generate_embedding_error_classes (RateLimit.OpenAIRateLimiter 2 true)
           eq_refl ltac:(cbn; lia) Sample.char_tokens Sample.acreate3 90 "" [] ∅).
  reflexivity.
Defined.

Lemma init_leaves_service_uninitialised_witness :
  let w := {| Services.service := {| Services.initialized := false;
                                     Services.last_health_check := None |};
              Services.limiter := RateLimit.OpenAIRateLimiter 2 false;
              Services.store := Redis.quiet ∅ |} in
  let w1 := snd (Services.init Sample.char_tokens Sample.acreate3 90 w) in
  RateLimit.connected (Services.limiter w1) = true
  /\ Services.service w1 = Services.service w
  /\ Services.health_check
       (Services._check_health Sample.char_tokens Sample.acreate3 100) 100 w1
     = (Ok false, w1).
Proof.
  apply (init_leaves_service_uninitialised Sample.char_tokens Sample.acreate3 90 100).
  reflexivity.
Defined.

Lemma check_health_uses_budget_witness :
  let w := {| Services.service := {| Services.initialized := true;
                                     Services.last_health_check := None |};
              Services.limiter := RateLimit.OpenAIRateLimiter 2 true;
              Services.store := Redis.quiet ∅ |} in
  let key := RateLimit._get_key (Services.limiter w) "generate_embedding" in
  let out := Services._check_health Sample.char_tokens Sample.acreate3 90 w in
  fst out = Ok (negb (RateLimit.max_requests (Services.limiter w)
                        <? Redis.counter 90 key ∅ + 1)
                && is_ok (Embeddings.generate_embedding_body Sample.char_tokens
                            Sample.acreate3 "health check"))
  /\ Redis.counter 90 key (Redis.db (Services.store (snd out))) = Redis.counter 90 key ∅ + 1
  /\ (forall w0, exists b w',
        Services._check_health Sample.char_tokens Sample.acreate3 90 w0 = (Ok b, w')).
Proof.
  apply (check_health_uses_budget Sample.char_tokens Sample.acreate3 90 _ ∅).
  - reflexivity.
  - cbn. lia.
  - reflexivity.
Defined.

Lemma search_jobs_pages_witness :
  let search := Repositories.search_jobs Sample.any_pattern Sample.backwards
                  (fun _ => false) None (Some "London"%string) None None in
  let page := [Sample.jobB] in
  let total := 3 in
  total = Z.of_nat (length (List.filter
                              (Repositories.matches_filters Sample.any_pattern
                                 None (Some "London"%string) None None)
                              (Models.jobs Sample.store)))
  /\ (forall skip' limit' page' total',
        search skip' limit' Sample.store = Ok (page', total') -> total' = total)
  /\ Z.of_nat (length page) = Z.min 1 (Z.max 0 (total - 1))
  /\ (forall j, In j page ->
        In j (Models.jobs Sample.store)
        /\ Repositories.matches_filters Sample.any_pattern
             None (Some "London"%string) None None j = true).
Proof.
  apply (search_jobs_pages Sample.any_pattern Sample.backwards (fun _ => false)
           ltac:(intros; symmetry; apply Permutation_rev)
           None (Some "London"%string) None None 1 1 Sample.store [Sample.jobB] 3).
  reflexivity.
Defined.

Lemma update_embedding_then_without_witness :
  let out := Repositories.update_embedding (fun _ => false) 2 Sample.short_vector
               Sample.store in
  (forall x, fst out = Raise x -> snd out = Sample.store)
  /\ (fst out = Ok tt ->
      ((forall j, In j (Models.jobs Sample.store) -> Models.id j <> 2) ->
       snd out = Sample.store)
      /\ (forall j, In j (Models.jobs Sample.store) -> Models.id j <> 2 ->
            In j (Models.jobs (snd out)))
      /\ (forall j, In j (Models.jobs (snd out)) -> Models.id j = 2 ->
            Models.embedding j = Some Sample.short_vector)
      /\ (forall j, In j (Models.jobs Sample.store) -> Models.id j = 2 ->
            In (Models.with_embedding Sample.short_vector j) (Models.jobs (snd out)))
      /\ (forall limit js,
            Repositories.get_jobs_without_embeddings Sample.backwards (fun _ => false)
              limit (snd out) = Ok js ->
            Z.of_nat (length js) <= limit
            /\ forall j, In j js ->
                 Models.id j <> 2 /\ Models.embedding j = None
                 /\ In j (Models.jobs Sample.store))).
Proof.
  exact (update_embedding_then_without Sample.backwards (fun _ => false) (fun _ => false)
           ltac:(intros; symmetry; apply Permutation_rev)
           2 Sample.short_vector Sample.store).
Defined.

